(** * Posterior-predictive checks of the course notebooks

    A shallow embedding of the notebook cells that simulate replicated
    data and compare it with the observed data:

    - the outlier-resistant regression notebook (normal and Student-t
      predictive checks, residual checks),
    - the "comparing two ratios" notebook (posterior probabilities as means
      of indicator arrays),
    - the elevator-repair notebook (the Stan [generated quantities] block),
    - the content recommender (the [Recommenderizer] button callbacks),

    together with the sampler / replicator / evaluator pipeline of the
    specification, assembled from those cells.

    Conventions.  A float64 is modelled by an exact rational in lowest
    terms ([Qc]); rounding is not modelled.  [None] at type [option Qc]
    stands for [nan].  A Python exception is the left injection of a sum. *)

From Stdlib Require Import ZArith QArith Qcanon.
From Stdlib Require Qcabs.
From stdpp Require Import base list numbers.

Local Open Scope Qc_scope.

(** ** Errors *)

(** The exceptions the cells can raise, named by the error taxonomy of the
    specification: numpy's [ValueError] for a parameter outside a sampler's
    domain is [InvalidParameter], its [ValueError] for operands that do not
    align or broadcast is [ShapeMismatch], [IndexError] is [OutOfRange]. *)
Inductive error : Type :=
  | InvalidParameter
  | ShapeMismatch
  | EmptyBatch
  | OutOfRange.

Definition result (A : Type) : Type := (error + A)%type.

Definition raise {A} (e : error) : result A := inl e.

Global Instance result_ret : MRet result := λ A, inr.

Global Instance result_bind : MBind result := λ A B k m,
  match m with
  | inl e => inl e
  | inr a => k a
  end.

(** ** numpy array primitives used by the cells *)

(** A 2-d array: its rows and its second dimension (which numpy keeps even
    when there are no rows).  Every row has [shape1] entries. *)
Record matrix := { shape1 : nat; rows : list (list Qc) }.

Definition shape0 (X : matrix) : nat := length (rows X).

Module np.

(** [np.sum] of a float array. *)
Definition sum (xs : list Qc) : Qc := foldr Qcplus 0 xs.

(** [np.mean] of a float array; the mean of an empty array is [nan]. *)
Definition mean (xs : list Qc) : option Qc :=
  match xs with
  | [] => None
  | _ :: _ => Some (sum xs / Qc_of_Z (Z.of_nat (length xs)))
  end.

(** [np.count_nonzero] of a boolean array: the number of [True] entries. *)
Definition count_nonzero (bs : list bool) : nat :=
  length (List.filter (λ b : bool, b) bs).

(** A boolean array is cast to float before it is averaged. *)
Definition astype_float (bs : list bool) : list Qc :=
  (λ b : bool, if b then 1 else 0) <$> bs.

(** [a <= t] and [a < t] with a scalar [t]: element-wise comparison. *)
Definition less_equal (a : list Qc) (t : Qc) : list bool :=
  (λ x, bool_decide (x ≤ t)) <$> a.

Definition less (a : list Qc) (t : Qc) : list bool :=
  (λ x, bool_decide (x < t)) <$> a.

(** [np.abs]. *)
Definition abs (a : list Qc) : list Qc := Qcabs.Qcabs <$> a.



(** [np.arange(n)]. *)
Definition arange (n : nat) : list Z := Z.of_nat <$> seq 0 n.

(** [a[i]] for a Python integer [i]: a negative index counts from the end,
    and an index outside [-len(a) .. len(a)-1] is an [IndexError]. *)
Definition getitem {A} (a : list A) (i : Z) : result A :=
  let n := Z.of_nat (length a) in
  let j := if decide (i < 0)%Z then (i + n)%Z else i in
  if decide (0 ≤ j < n)%Z then
    match a !! Z.to_nat j with
    | Some x => mret x
    | None => raise OutOfRange
    end
  else raise OutOfRange.

(** The inner product of two 1-d arrays of equal length. *)
Definition dot1 (b r : list Qc) : Qc := np.sum (zip_with Qcmult b r).

(** [b.dot(X.T)] for a 1-d [b] and a 2-d [X]: one inner product per row of
    [X]; [len(b)] must be the second dimension of [X]. *)
Definition dot_T (b : list Qc) (X : matrix) : result (list Qc) :=
  if decide (length b = shape1 X) then mret (dot1 b <$> rows X)
  else raise ShapeMismatch.

(** [a + c] for a scalar [c]. *)
Definition add_scalar (a : list Qc) (c : Qc) : list Qc := (λ x, x + c) <$> a.

(** [c * a] for a scalar [c]. *)
Definition scale (c : Qc) (a : list Qc) : list Qc := (λ x, c * x) <$> a.

(** [a - b] and [a + b] for two 1-d arrays, with numpy's broadcasting: equal
    lengths add element-wise, a length-one operand is stretched, anything
    else is a [ValueError]. *)
Definition broadcast (op : Qc → Qc → Qc) (a b : list Qc) : result (list Qc) :=
  if decide (length a = length b) then mret (zip_with op a b)
  else match a, b with
       | [x], _ => mret (op x <$> b)
       | _, [y] => mret ((λ x, op x y) <$> a)
       | _, _ => raise ShapeMismatch
       end.

Definition add := broadcast Qcplus.
Definition sub := broadcast Qcminus.

End np.

(** ** Comparing two ratios: posterior probabilities *)

Module Undervote.

(** [np.mean(traces["delta_vns"] <= 0)]. *)
Definition prob_le_zero (delta : list Qc) : option Qc :=
  np.mean (np.astype_float (np.less_equal delta 0)).

(** [np.mean(np.abs(traces["delta_vns"]) < 0.001)]. *)
Definition prob_abs_lt_tenth_percent (delta : list Qc) : option Qc :=
  np.mean (np.astype_float (np.less (np.abs delta) (Q2Qc (1 # 1000)))).

End Undervote.

(** ** Sources of randomness *)

(** numpy's global generator.  The generator itself is not part of the
    notebooks; the cells only call its samplers, so it is a parameter:
    a state type [G] with the samplers the cells use, each returning the
    sample and the advanced state. *)
Class NumpyRandom (G : Type) := {
  (** [np.random.seed(s)] *)
  seed : Z → G;
  (** one standard-normal variate *)
  gauss : G → Qc * G;
  (** one standard Student-t variate with [df] degrees of freedom *)
  student_t : Qc → G → Qc * G;
  (** a uniform integer below [n] *)
  randint : nat → G → nat * G;
  randint_lt : ∀ n g, (0 < n)%nat → ((randint n g).1 < n)%nat
}.

(** [size] consecutive variates of a sampler, the state threaded through. *)
Fixpoint sample_n {G A} (f : G → A * G) (size : nat) (g : G) : list A * G :=
  match size with
  | O => ([], g)
  | S size' =>
      let '(x, g1) := f g in
      let '(xs, g2) := sample_n f size' g1 in
      (x :: xs, g2)
  end.

(** The next [n] standard-normal variates and the next [n] Student-t
    variates a generator in state [g] hands out. *)
Definition next_gauss {G} `{NumpyRandom G} (n : nat) (g : G) : list Qc :=
  (sample_n gauss n g).1.

Definition next_student_t {G} `{NumpyRandom G} (nu : Qc) (n : nat) (g : G)
    : list Qc :=
  (sample_n (student_t nu) n g).1.


Module np_random.
Section samplers.
Context {G : Type} `{NumpyRandom G}.

(** Modelled from the spec: [np.random.normal(loc, scale, size)] is numpy's
    and not defined in the notebooks; a negative scale is rejected with
    InvalidParameter (numpy's [ValueError]) before anything is drawn,
    otherwise every entry is [loc + scale * z] for a fresh standard-normal
    variate [z]. *)
Definition normal (loc scale : Qc) (size : nat) (g : G) : result (list Qc * G) :=
  if decide (scale < 0) then raise InvalidParameter
  else mret (sample_n (λ g, let '(z, g') := gauss g in (loc + scale * z, g')) size g).

(** Modelled from the spec: [np.random.standard_t(df, size)] is numpy's
    and not defined in the notebooks; non-positive degrees of freedom are
    rejected with InvalidParameter (numpy's [ValueError]) before anything is
    drawn, otherwise [size] standard Student-t variates are returned. *)
Definition standard_t (df : Qc) (size : nat) (g : G) : result (list Qc * G) :=
  if decide (df ≤ 0) then raise InvalidParameter
  else mret (sample_n (student_t df) size g).


(** [np.random.choice(a)] for a 1-d array [a]: the entry at a uniform
    position; an empty [a] is a [ValueError]. *)
Definition choice {A} (a : list A) (g : G) : result (A * G) :=
  let '(k, g') := randint (length a) g in
  match a !! k with
  | Some x => mret (x, g')
  | None => raise EmptyBatch
  end.

End samplers.
End np_random.

(** ** Outlier-resistant regression: the predictive-check cells *)

Module Resistant.

(** [traces_norm = fit_norm.extract()]: one row of [beta] and one entry of
    [sigma] and [intercept] per posterior sample. *)
Record traces_norm := {
  beta : matrix;
  intercept : list Qc;
  sigma : list Qc
}.

(** [traces_t = fit_t.extract()]: the Student-t fit also carries the
    degrees of freedom [nu]. *)
Record traces_t := {
  beta_t : matrix;
  intercept_t : list Qc;
  nu_t : list Qc;
  sigma_t : list Qc
}.

(** One posterior sample of the normal model, and of the Student-t model. *)
Record draw_norm := { b : list Qc; s : Qc; c : Qc }.
Record draw_t := { bt : list Qc; ct : Qc; df : Qc; st : Qc }.

(** [beta = traces_norm["beta"][i,:]; sigma = traces_norm["sigma"][i];
     intercept = traces_norm["intercept"][i]] *)
Definition pick_norm (tr : traces_norm) (i : Z) : result draw_norm :=
  beta_i ← np.getitem (rows (beta tr)) i;
  sigma_i ← np.getitem (sigma tr) i;
  intercept_i ← np.getitem (intercept tr) i;
  mret {| b := beta_i; s := sigma_i; c := intercept_i |}.

(** [beta = traces_t["beta"][i,:]; intercept = traces_t["intercept"][i];
     nu = traces_t["nu"][i]; sigma = traces_t["sigma"][i]] *)
Definition pick_t (tr : traces_t) (i : Z) : result draw_t :=
  beta_i ← np.getitem (rows (beta_t tr)) i;
  intercept_i ← np.getitem (intercept_t tr) i;
  nu_i ← np.getitem (nu_t tr) i;
  sigma_i ← np.getitem (sigma_t tr) i;
  mret {| bt := beta_i; ct := intercept_i; df := nu_i; st := sigma_i |}.

Section cells.
Context {G : Type} `{NumpyRandom G}.

(** The body of a [for j in range(n)] loop that only touches the generator,
    run [n] times; the values of the iterations are collected in order. *)
Fixpoint for_range {A} (n : nat) (body : G → result (A * G)) (g : G)
    : result (list A * G) :=
  match n with
  | O => mret ([], g)
  | S n' =>
      '(x, g1) ← body g;
      '(xs, g2) ← for_range n' body g1;
      mret (x :: xs, g2)
  end.

(** Normal model, one replicated data set:
    [epsilon = np.random.normal(0, sigma, size=len(Y_test))] and the plotted
    [beta.dot(X_test.T)+intercept+epsilon]. *)
Definition replicate_norm (d : draw_norm) (X_test : matrix) (Y_test : list Qc)
    (g : G) : result (list Qc * G) :=
  '(epsilon, g') ← np_random.normal 0 (s d) (length Y_test) g;
  mu ← np.dot_T (b d) X_test;
  y ← np.add (np.add_scalar mu (c d)) epsilon;
  mret (y, g').

(** Student-t model, one replicated data set:
    [epsilon = sigma*np.random.standard_t(nu, size=len(Y_test))] and the
    plotted [beta.dot(X_test.T)+intercept+epsilon]. *)
Definition replicate_t (d : draw_t) (X_test : matrix) (Y_test : list Qc)
    (g : G) : result (list Qc * G) :=
  '(t, g') ← np_random.standard_t (df d) (length Y_test) g;
  let epsilon := np.scale (st d) t in
  mu ← np.dot_T (bt d) X_test;
  y ← np.add (np.add_scalar mu (ct d)) epsilon;
  mret (y, g').

(** [X_test[:,0]]: the first column; a matrix without columns has no
    index 0 on that axis, an [IndexError].  (Every row has [shape1]
    entries, so each row has a first entry when [shape1] is not 0.) *)
Definition column0 (X_test : matrix) : result (list Qc) :=
  if decide (shape1 X_test = 0%nat) then raise OutOfRange
  else mret ((λ r, default 0 (head r)) <$> rows X_test).

(** [plt.plot(x, y, fmt, alpha=0.5)]: draws, and raises a [ValueError] when
    [x] and [y] are not equally long. *)
Definition plot (x y : list Qc) : result () :=
  if decide (length x = length y) then mret () else raise ShapeMismatch.

(** The body of the normal check for the sample that was picked:
    [epsilon = np.random.normal(0, sigma, size=len(Y_test))], then
    [plt.plot(X_test[:,0], Y_test, "o", alpha=0.5)] and
    [plt.plot(X_test[:,0], beta.dot(X_test.T)+intercept+epsilon, ".",
    alpha=0.5)].  The value is the replicated data set that is plotted.
    [plt.subplot(3,3,j+1)] for [j] below 9 and [plt.axis(False)] only draw. *)
Definition panel_norm (d : draw_norm) (X_test : matrix) (Y_test : list Qc)
    (g : G) : result (list Qc * G) :=
  '(epsilon, g') ← np_random.normal 0 (s d) (length Y_test) g;
  x0 ← column0 X_test;
  _ ← plot x0 Y_test;
  x0' ← column0 X_test;
  mu ← np.dot_T (b d) X_test;
  y ← np.add (np.add_scalar mu (c d)) epsilon;
  _ ← plot x0' y;
  mret (y, g').

(** The body of the Student-t check for the sample that was picked:
    [epsilon = sigma*np.random.standard_t(nu, size=len(Y_test))], then the
    same two [plt.plot] calls. *)
Definition panel_t (d : draw_t) (X_test : matrix) (Y_test : list Qc)
    (g : G) : result (list Qc * G) :=
  '(t, g') ← np_random.standard_t (df d) (length Y_test) g;
  let epsilon := np.scale (st d) t in
  x0 ← column0 X_test;
  _ ← plot x0 Y_test;
  x0' ← column0 X_test;
  mu ← np.dot_T (bt d) X_test;
  y ← np.add (np.add_scalar mu (ct d)) epsilon;
  _ ← plot x0' y;
  mret (y, g').

(** One iteration of the normal posterior predictive check: pick a posterior
    sample at random, then draw and plot its panel. *)
Definition ppc_norm_iter (tr : traces_norm) (X_test : matrix)
    (Y_test : list Qc) (g : G) : result (list Qc * G) :=
  '(i, g1) ← np_random.choice (np.arange (shape0 (beta tr))) g;
  d ← pick_norm tr i;
  panel_norm d X_test Y_test g1.

Definition ppc_t_iter (tr : traces_t) (X_test : matrix)
    (Y_test : list Qc) (g : G) : result (list Qc * G) :=
  '(i, g1) ← np_random.choice (np.arange (shape0 (beta_t tr))) g;
  d ← pick_t tr i;
  panel_t d X_test Y_test g1.

(** The two cells: [figsize(12,12)] and nine panels each. *)
Definition ppc_norm_cell (tr : traces_norm) (X_test : matrix)
    (Y_test : list Qc) : G → result (list (list Qc) * G) :=
  for_range 9 (ppc_norm_iter tr X_test Y_test).

Definition ppc_t_cell (tr : traces_t) (X_test : matrix)
    (Y_test : list Qc) : G → result (list (list Qc) * G) :=
  for_range 9 (ppc_t_iter tr X_test Y_test).

(** The residual check of the normal model.  Returns [resid_norm] and
    [resid_pp_norm]; [epsilon] is drawn and not used. *)
Definition resid_norm_cell (tr : traces_norm) (X_test : matrix)
    (Y_test : list Qc) (g : G) : result (list Qc * list Qc * G) :=
  '(i, g1) ← np_random.choice (np.arange (shape0 (beta tr))) g;
  d ← pick_norm tr i;
  mu ← np.dot_T (b d) X_test;
  r ← np.sub Y_test mu;
  let resid_norm := np.add_scalar r (- c d) in
  '(epsilon, g2) ← np_random.normal 0 (s d) (length Y_test) g1;
  '(resid_pp_norm, g3) ← np_random.normal 0 (s d) (100 * length Y_test) g2;
  mret (resid_norm, resid_pp_norm, g3).

(** The residual check of the Student-t model.  Returns [resid_t] and
    [resid_pp_t]. *)
Definition resid_t_cell (tr : traces_t) (X_test : matrix)
    (Y_test : list Qc) (g : G) : result (list Qc * list Qc * G) :=
  '(i, g1) ← np_random.choice (np.arange (shape0 (beta_t tr))) g;
  d ← pick_t tr i;
  mu ← np.dot_T (bt d) X_test;
  r ← np.sub Y_test mu;
  let resid_t := np.add_scalar r (- ct d) in
  '(t, g2) ← np_random.standard_t (df d) (100 * length Y_test) g1;
  mret (resid_t, np.scale (st d) t, g2).

End cells.
End Resistant.

(** ** Elevator repair: the Stan [generated quantities] block *)

(** Stan's generator, a parameter like numpy's.  The rate-zero Poisson
    distribution is the point mass at zero. *)
Class StanRandom (R : Type) := {
  (** one Poisson variate of rate [lam >= 0] *)
  poisson : Qc → R → nat * R;
  poisson_zero : ∀ r, (poisson 0 r).1 = 0%nat
}.


Module Elevator.

(** A Poisson count stored in a Stan vector. *)
Definition stored (k : nat) : option Qc := Some (Qc_of_Z (Z.of_nat k)).

Section stan.
Context {R : Type} `{StanRandom R}.

(** Modelled from the spec: Stan's [poisson_rng] is called by the model
    code and not defined in the notebook; a negative rate is rejected
    with InvalidParameter, otherwise the generator's variate is returned
    as a Stan [int]. *)
Definition poisson_rng (lam : Qc) (r : R) : result (Z * R) :=
  if decide (lam < 0) then raise InvalidParameter
  else let '(k, r') := poisson lam r in mret (Z.of_nat k, r').

(** [v[i] = x] on a Stan vector: indices run from 1. *)
Definition vector_assign (v : list (option Qc)) (i : nat) (x : Qc)
    : result (list (option Qc)) :=
  if decide (1 ≤ i ≤ length v)%nat then mret (<[pred i := Some x]> v)
  else raise OutOfRange.

(** [for (i in idx) body]: the loop state and the generator are threaded
    through the iterations. *)
Fixpoint for_in {S} (idx : list nat) (body : nat → S → R → result (S * R))
    (s : S) (r : R) : result (S * R) :=
  match idx with
  | [] => mret (s, r)
  | i :: idx' => '(s', r') ← body i s r; for_in idx' body s' r'
  end.

(** [vector[N] y_sim; for(i in 1:N) { y_sim[i] = poisson_rng(lam); }]

    [N] is declared [int<lower=0>]; a fresh vector holds [nan]. *)
Definition y_sim (N : nat) (lam : Qc) (r : R) : result (list (option Qc) * R) :=
  for_in (seq 1 N)
    (λ i y r,
       '(k, r') ← poisson_rng lam r;
       y' ← vector_assign y i (Qc_of_Z k);
       mret (y', r'))
    (replicate N None) r.

End stan.
End Elevator.

(** ** The content recommender *)

Module Recommender.

(** [a[i] = x] for a Python integer [i], with numpy's index rules. *)
Definition setitem {A} (a : list A) (i : Z) (x : A) : result (list A) :=
  let n := Z.of_nat (length a) in
  let j := if decide (i < 0)%Z then (i + n)%Z else i in
  if decide (0 ≤ j < n)%Z then mret (<[Z.to_nat j := x]> a)
  else raise OutOfRange.

(** [xs.argmax()]: the first position of the maximum. *)
Fixpoint argmax_from (best : Qc) (besti i : nat) (xs : list Qc) : nat :=
  match xs with
  | [] => besti
  | x :: xs' =>
      if decide (best < x) then argmax_from x i (S i) xs'
      else argmax_from best besti (S i) xs'
  end.

Definition argmax (xs : list Qc) : result Z :=
  match xs with
  | [] => raise EmptyBatch
  | x :: xs' => mret (Z.of_nat (argmax_from x 0 1 xs'))
  end.

(** [np.arange(len(labels))[mask]] *)
Definition indices_where (mask : list bool) : list Z :=
  (λ p, Z.of_nat p.1) <$> List.filter snd (imap (λ i m, (i, m)) mask).

(** [(labels == v).sum()] *)
Definition count_eq (labels : list (option Qc)) (v : Qc) : nat :=
  length (List.filter (λ l, bool_decide (l = Some v)) labels).

(** The global [labels] array together with the attributes of the
    [Recommenderizer] object the callbacks write. *)
Record state := {
  labels : list (option Qc);
  next_index : Z;
  _index_history : list Z;
  _label_history : list Z
}.

Inductive press := yes | no.

Section gui.
Context {G : Type} `{NumpyRandom G}.

(** [components]: one row of features per document. *)
Variable components : matrix.

(** The last posterior sample of [beta] from [model.sampling] on the
    labelled rows and their labels.  The Stan model is the student's, so
    the fit is a parameter; it may fail, and it advances the generator. *)
Variable sampling : list (list Qc) → list (option Qc) → G → result (list Qc) * G.

(** [choose_next_index()].  An exception leaves the generator where it
    was when it was raised. *)
Definition choose_next_index (labels : list (option Qc)) (g : G)
    : result Z * G :=
  let unlabeled := (λ l : option Qc, bool_decide (l = None)) <$> labels in
  let labeled_indices := indices_where (negb <$> unlabeled) in
  let unlabeled_indices := indices_where unlabeled in
  if decide (count_eq labels 0 `min` count_eq labels 1 = 0)%nat then
    match np_random.choice unlabeled_indices g with
    | inl e => (inl e, g)
    | inr (i, g') => (inr i, g')
    end
  else
    match
      X ← mapM (np.getitem (rows components)) labeled_indices;
      y ← mapM (np.getitem labels) labeled_indices;
      mret (X, y)
    with
    | inl e => (inl e, g)
    | inr (X, y) =>
        match sampling X y g with
        | (inl e, g') => (inl e, g')
        | (inr beta_sample, g') =>
            (reward_estimates ← np.dot_T beta_sample components;
             let masked :=
               foldl (λ r i, <[Z.to_nat i := - Qc_of_Z 1000]> r)
                     reward_estimates labeled_indices in
             argmax masked, g')
        end
    end.

(** [_sample]: choose the next document.  The two Markdown panes it
    refreshes are display only and are left out. *)
Definition _sample (st : state) (g : G) : state * result () * G :=
  match choose_next_index (labels st) g with
  | (inl e, g') => (st, inl e, g')
  | (inr i, g') =>
      ({| labels := labels st; next_index := i;
          _index_history := _index_history st;
          _label_history := _label_history st |}, inr (), g')
  end.

(** The common body of [_record_yes] and [_record_no]: the label is [1] or
    [0].  The state that is returned is the one the callback leaves behind,
    also when it ends in an exception. *)
Definition record (label : Z) (st : state) (g : G) : state * result () * G :=
  match setitem (labels st) (next_index st) (Some (Qc_of_Z label)) with
  | inl e => (st, inl e, g)
  | inr labels' =>
      _sample {| labels := labels'; next_index := next_index st;
                 _index_history := _index_history st ++ [next_index st];
                 _label_history := _label_history st ++ [label] |} g
  end.

Definition _record_yes : state → G → state * result () * G := record 1.
Definition _record_no : state → G → state * result () * G := record 0.

Definition on_click (p : press) : state → G → state * result () * G :=
  match p with
  | yes => _record_yes
  | no => _record_no
  end.

(** [Recommenderizer()] on the current global [labels]: empty histories,
    then [_sample()]; if that raises there is no object. *)
Definition __init__ (labels0 : list (option Qc)) (g : G) : result state * G :=
  match choose_next_index labels0 g with
  | (inl e, g') => (inl e, g')
  | (inr i, g') =>
      (inr {| labels := labels0; next_index := i;
              _index_history := []; _label_history := [] |}, g')
  end.

(** A run of button presses; an exception in a callback is reported by the
    GUI and the next press finds the state the callback left. *)
Fixpoint presses (ps : list press) (st : state) (g : G) : state * G :=
  match ps with
  | [] => (st, g)
  | p :: ps' => let '(st', _, g') := on_click p st g in presses ps' st' g'
  end.

(** What every callback preserves from the creation of the object on. *)
Definition gui_invariant (n : nat) (st : state) : Prop :=
  shape0 components = length (labels st) ∧
  (0 ≤ next_index st < Z.of_nat (length (labels st)))%Z ∧
  length (_index_history st) = n ∧
  length (_label_history st) = n.

End gui.
End Recommender.

(** ** The predictive-check pipeline of the specification *)

Module Pipeline.

(** The result of a check: the observed statistic, the replicated
    statistics in batch order, and the rank. *)
Record CheckResult := {
  observed_stat : option Qc;
  replicated_stats : list (option Qc);
  rank : option Qc
}.

(** [a <= b] on two floats: every comparison with [nan] is false. *)
Definition float_le (a b : option Qc) : bool :=
  match a, b with
  | Some x, Some y => bool_decide (x ≤ y)
  | _, _ => false
  end.

(** The number of replicated statistics at or below the observed one. *)
Definition count_le (statistic : list Qc → option Qc) (observed : list Qc)
    (replicated_batch : list (list Qc)) : nat :=
  length (List.filter (λ r, float_le r (statistic observed))
                      (statistic <$> replicated_batch)).

(** Modelled from the spec: [evaluate] is not a function of the notebooks,
    which compute a rank in place as [np.mean(values <= threshold)].  As the
    spec words it: zero observations or zero draws are an EmptyBatch error,
    raised before any statistic is computed; otherwise the statistic of the
    observed data, the statistic of every replicated data set in batch
    order, and the rank as the mean of the indicator
    [replicated_stats <= observed_stat]. *)
Definition evaluate (observed : list Qc) (replicated_batch : list (list Qc))
    (statistic : list Qc → option Qc) : result CheckResult :=
  match observed, replicated_batch with
  | [], _ => raise EmptyBatch
  | _ :: _, [] => raise EmptyBatch
  | _ :: _, _ :: _ =>
      let o := statistic observed in
      let rs := statistic <$> replicated_batch in
      mret {| observed_stat := o;
              replicated_stats := rs;
              rank := np.mean (np.astype_float ((λ r, float_le r o) <$> rs)) |}
  end.

(** The rank of an evaluation, or the error it ended with. *)
Definition rank_of (m : result CheckResult) : result (option Qc) :=
  match m with
  | inl e => inl e
  | inr res => inr (rank res)
  end.

(** [draw_at(i)] is the indexing the cells do on the extracted traces. *)
Definition draw_at : Resistant.traces_norm → Z → result Resistant.draw_norm :=
  Resistant.pick_norm.

(** Modelled from the spec: [all_draws] is not a function of the notebooks.
    As the spec words it, the full batch in storage order: the rows of
    [beta] paired with the entries of [sigma] and [intercept]. *)
Definition all_draws (tr : Resistant.traces_norm) : list Resistant.draw_norm :=
  zip_with (λ bi sc, {| Resistant.b := bi; Resistant.s := sc.1; Resistant.c := sc.2 |})
    (rows (Resistant.beta tr))
    (zip (Resistant.sigma tr) (Resistant.intercept tr)).

(** The batch size [B]: [traces["beta"].shape[0]]. *)
Definition batch_size (tr : Resistant.traces_norm) : nat :=
  shape0 (Resistant.beta tr).

(** A batch as the inference engine returns it: one entry of every
    parameter per draw. *)
Definition wf_traces (tr : Resistant.traces_norm) : Prop :=
  length (Resistant.sigma tr) = batch_size tr ∧
  length (Resistant.intercept tr) = batch_size tr.

End Pipeline.

(** A fit of the normal model that matches the test data: every sample has
    one coefficient per column and a scale numpy accepts. *)
Definition fits_norm (tr : Resistant.traces_norm) (X_test : matrix) : Prop :=
  Pipeline.wf_traces tr ∧
  (0 < Pipeline.batch_size tr)%nat ∧
  Forall (λ bi, length bi = shape1 X_test) (rows (Resistant.beta tr)) ∧
  Forall (λ sk, 0 ≤ sk) (Resistant.sigma tr).

(** A fit of the Student-t model that matches the test data: one entry of
    every parameter per sample, one coefficient per column, and positive
    degrees of freedom. *)
Definition fits_t (tr : Resistant.traces_t) (X_test : matrix) : Prop :=
  let B := shape0 (Resistant.beta_t tr) in
  (length (Resistant.intercept_t tr) = B ∧
   length (Resistant.nu_t tr) = B ∧
   length (Resistant.sigma_t tr) = B) ∧
  (0 < B)%nat ∧
  Forall (λ bi, length bi = shape1 X_test) (rows (Resistant.beta_t tr)) ∧
  Forall (λ nu, 0 < nu) (Resistant.nu_t tr).

(** ** A concrete generator

    The counting generator: its state is the number of variates drawn so
    far, and the next variate is that number.  It instantiates the two
    generator interfaces in the examples below. *)

Module Counter.

Definition next_variate (g : nat) : Qc * nat := (Qc_of_Z (Z.of_nat g), S g).

Definition next_below (n g : nat) : nat * nat := (g `mod` n, S g)%nat.

Definition next_count (lam : Qc) (g : nat) : nat * nat :=
  (if decide (lam = 0) then 0%nat else g, S g).

Global Instance numpy : NumpyRandom nat := {|
  seed := Z.to_nat;
  gauss := next_variate;
  student_t := λ _, next_variate;
  randint := next_below;
  randint_lt := λ n g Hn, Nat.mod_upper_bound g n (Nat.neq_sym _ _ (Nat.lt_neq _ _ Hn))
|}.

Global Instance stan : StanRandom nat := {|
  poisson := next_count;
  poisson_zero := λ g, eq_refl
|}.

(** The same generators with a tag in the state that no sampler reads: two
    states that differ in the tag hand out the same variates. *)
Definition tagged {A} (f : nat → A * nat) (g : nat * bool) : A * (nat * bool) :=
  let '(x, n) := f g.1 in (x, (n, g.2)).

Global Instance numpy_tagged : NumpyRandom (nat * bool) | 100 := {|
  seed := λ s, (Z.to_nat s, false);
  gauss := tagged next_variate;
  student_t := λ _, tagged next_variate;
  randint := λ n, tagged (next_below n);
  randint_lt := λ n g Hn,
    Nat.mod_upper_bound g.1 n (Nat.neq_sym _ _ (Nat.lt_neq _ _ Hn))
|}.

Global Instance stan_tagged : StanRandom (nat * bool) | 100 := {|
  poisson := λ lam, tagged (next_count lam);
  poisson_zero := λ g, eq_refl
|}.

End Counter.

(** ** Example data *)

(** A test set of two rows, and a fit with a single posterior sample. *)
Definition X_two : matrix :=
  {| shape1 := 2;
     rows := [Qc_of_Z <$> [1; 0]%Z; Qc_of_Z <$> [0; 1]%Z] |}.

Definition Y_two : list Qc := Qc_of_Z <$> [7; 9]%Z.

Definition draw_norm_one : Resistant.draw_norm :=
  {| Resistant.b := Qc_of_Z <$> [1; 2]%Z;
     Resistant.s := Qc_of_Z 1;
     Resistant.c := Qc_of_Z 3 |}.

Definition draw_t_one : Resistant.draw_t :=
  {| Resistant.bt := Qc_of_Z <$> [1; 2]%Z;
     Resistant.ct := Qc_of_Z 3;
     Resistant.df := Qc_of_Z 4;
     Resistant.st := Qc_of_Z 1 |}.

Definition traces_norm_one : Resistant.traces_norm :=
  {| Resistant.beta := {| shape1 := 2; rows := [Qc_of_Z <$> [1; 2]%Z] |};
     Resistant.intercept := [Qc_of_Z 3];
     Resistant.sigma := [Qc_of_Z 1] |}.

Definition traces_t_one : Resistant.traces_t :=
  {| Resistant.beta_t := {| shape1 := 2; rows := [Qc_of_Z <$> [1; 2]%Z] |};
     Resistant.intercept_t := [Qc_of_Z 3];
     Resistant.nu_t := [Qc_of_Z 4];
     Resistant.sigma_t := [Qc_of_Z 1] |}.

(** A Student-t draw with degrees of freedom outside the domain. *)
Definition draw_t_zero_df : Resistant.draw_t :=
  {| Resistant.bt := Qc_of_Z <$> [1; 2]%Z;
     Resistant.ct := Qc_of_Z 3;
     Resistant.df := Qc_of_Z 0;
     Resistant.st := Qc_of_Z 1 |}.

(** A batch of three posterior samples. *)
Definition traces_norm_three : Resistant.traces_norm :=
  {| Resistant.beta :=
       {| shape1 := 1;
          rows := [[Qc_of_Z 10]; [Qc_of_Z 20]; [Qc_of_Z 30]] |};
     Resistant.intercept := Qc_of_Z <$> [1; 2; 3]%Z;
     Resistant.sigma := Qc_of_Z <$> [4; 5; 6]%Z |}.

(** A stand-in for the Stan fit: the same coefficients whatever the labelled
    data, the generator untouched. *)
Definition constant_fit (X : list (list Qc)) (y : list (option Qc)) (g : nat)
    : result (list Qc) * nat :=
  (inr (Qc_of_Z <$> [1; 2]%Z), g).

(** The recommender on two unlabelled documents, the second one shown. *)
Definition gui_two : Recommender.state :=
  {| Recommender.labels := [None; None];
     Recommender.next_index := 1;
     Recommender._index_history := [];
     Recommender._label_history := [] |}.

(** Three documents with two features each; the first is marked useful,
    the second not useful, the third is unread. *)
Definition X_three : matrix :=
  {| shape1 := 2;
     rows := [Qc_of_Z <$> [1; 0]%Z; Qc_of_Z <$> [0; 1]%Z; Qc_of_Z <$> [1; 1]%Z] |}.

Definition labels_three : list (option Qc) :=
  [Some (Qc_of_Z 1); Some (Qc_of_Z 0); None].

(** Two documents, both read: one useful, one not. *)
Definition labels_all_read : list (option Qc) :=
  [Some (Qc_of_Z 1); Some (Qc_of_Z 0)].


(** ** Further cells of the notebooks *)

(** *** The train/test split of the regression notebook *)

Module Split.

(** The entries of [a] at the [True] positions of [mask]. *)
Fixpoint compress {A} (mask : list bool) (a : list A) : list A :=
  match mask, a with
  | m :: mask', x :: a' =>
      if m then x :: compress mask' a' else compress mask' a'
  | _, _ => []
  end.

(** [a[mask]] for a boolean array [mask]: a mask whose length is not the
    length of [a] is an [IndexError]. *)
Definition getitem_mask {A} (a : list A) (mask : list bool) : result (list A) :=
  if decide (length mask = length a) then mret (compress mask a)
  else raise OutOfRange.

(** [~mask] *)
Definition invert (mask : list bool) : list bool := negb <$> mask.

(** What the cell leaves behind: the test set and the training set. *)
Record split := {
  X_test : matrix;
  Y_test : list Qc;
  X_train : matrix;
  Y_train : list Qc
}.

(** [X_test = X[test]; Y_test = Y[test]; X = X[~test,:]; Y = Y[~test]] for
    the boolean array [test] that [np.random.choice([False, True], ...)]
    returned. *)
Definition train_test_split (X : matrix) (Y : list Qc) (test : list bool)
    : result split :=
  X_test_rows ← getitem_mask (rows X) test;
  Y_test ← getitem_mask Y test;
  X_rows ← getitem_mask (rows X) (invert test);
  Y' ← getitem_mask Y (invert test);
  mret {| X_test := {| shape1 := shape1 X; rows := X_test_rows |};
          Y_test := Y_test;
          X_train := {| shape1 := shape1 X; rows := X_rows |};
          Y_train := Y' |}.

End Split.

(** *** The regret plot of the recommender notebook *)

Module Regret.

(** [np.cumsum] of an integer array. *)
Fixpoint cumsum_from (acc : Z) (xs : list Z) : list Z :=
  match xs with
  | [] => []
  | x :: xs' => (acc + x)%Z :: cumsum_from (acc + x)%Z xs'
  end.

Definition cumsum (xs : list Z) : list Z := cumsum_from 0 xs.

(** [np.cumsum([1-x for x in foo._label_history])] *)
Definition cumulative_regret (_label_history : list Z) : list Z :=
  cumsum ((λ x, 1 - x)%Z <$> _label_history).

(** [np.arange(len(foo._label_history))+1] *)
Definition worst_case (_label_history : list Z) : list Z :=
  (λ k, k + 1)%Z <$> np.arange (length _label_history).

End Regret.

(** *** Reading the recommender's state *)

(** The label a button stands for. *)
Definition label_of (p : Recommender.press) : Z :=
  match p with
  | Recommender.yes => 1
  | Recommender.no => 0
  end.

(** The button that says the document was not useful. *)
Definition is_no (p : Recommender.press) : bool :=
  match p with
  | Recommender.no => true
  | Recommender.yes => false
  end.

(** The label array obtained by writing the recorded (index, label) pairs,
    oldest first, into [labels0]. *)
Definition replay (labels0 : list (option Qc)) (index_history label_history : list Z)
    : list (option Qc) :=
  foldl (λ l p, <[Z.to_nat p.1 := Some (Qc_of_Z p.2)]> l) labels0
        (zip index_history label_history).

(** [reward_estimates[labeled_indices] = -1000] *)
Definition mask_labeled (reward_estimates : list Qc) (labels : list (option Qc))
    : list Qc :=
  foldl (λ r i, <[Z.to_nat i := - Qc_of_Z 1000]> r) reward_estimates
        (Recommender.indices_where
           (negb <$> ((λ l : option Qc, bool_decide (l = None)) <$> labels))).

(** * Properties *)

(** ** The mean of an indicator array *)

Section indicator_mean.

Lemma Qc_of_nat_S (n : nat) :
  Qc_of_Z (Z.of_nat (S n)) = 1 + Qc_of_Z (Z.of_nat n).
Proof. by rewrite Nat2Z.inj_succ, <-Z.add_1_l, Z2Qc_inj_add, Z2Qc_inj_1. Qed.

Lemma sum_astype_float bs :
  np.sum (np.astype_float bs) = Qc_of_Z (Z.of_nat (np.count_nonzero bs)).
Proof.
  unfold np.count_nonzero.
  induction bs as [|[] bs IH].
  - symmetry. apply Z2Qc_inj_0.
  - change (1 + np.sum (np.astype_float bs) =
            Qc_of_Z (Z.of_nat (S (length (List.filter (λ b : bool, b) bs))))).
    by rewrite IH, Qc_of_nat_S.
  - change (0 + np.sum (np.astype_float bs) =
            Qc_of_Z (Z.of_nat (length (List.filter (λ b : bool, b) bs)))).
    by rewrite IH, Qcplus_0_l.
Qed.

Lemma count_nonzero_le bs : (np.count_nonzero bs ≤ length bs)%nat.
Proof. unfold np.count_nonzero. apply List.filter_length_le. Qed.

Lemma count_nonzero_fmap {A} (f : A → bool) (l : list A) :
  np.count_nonzero (f <$> l) = length (List.filter f l).
Proof.
  unfold np.count_nonzero. induction l as [|x l IH]; [done|].
  rewrite fmap_cons. cbn [List.filter]. destruct (f x); cbn [length]; by rewrite IH.
Qed.

Lemma mean_astype_float bs :
  bs ≠ [] →
  np.mean (np.astype_float bs) =
    Some (Qc_of_Z (Z.of_nat (np.count_nonzero bs)) / Qc_of_Z (Z.of_nat (length bs))).
Proof.
  intros Hne. destruct bs as [|b bs]; [done|].
  unfold np.mean. change (np.astype_float (b :: bs)) with
    ((if b then 1 else 0) :: np.astype_float bs).
  cbv beta iota. f_equal.
  change ((if b then 1 else 0) :: np.astype_float bs) with (np.astype_float (b :: bs)).
  rewrite sum_astype_float. unfold np.astype_float. by rewrite length_fmap.
Qed.

Lemma fraction_in_unit_interval (k n : nat) :
  (k ≤ n)%nat → (0 < n)%nat →
  0 ≤ Qc_of_Z (Z.of_nat k) / Qc_of_Z (Z.of_nat n) ≤ 1.
Proof.
  intros Hk Hn.
  assert (Hpos : 0 < Qc_of_Z (Z.of_nat n)).
  { pose proof (proj1 (Z2Qc_inj_lt 0 (Z.of_nat n))) as Hlt.
    rewrite Z2Qc_inj_0 in Hlt. apply Hlt. lia. }
  assert (Hk0 : 0 ≤ Qc_of_Z (Z.of_nat k)).
  { pose proof (proj1 (Z2Qc_inj_le 0 (Z.of_nat k))) as Hle.
    rewrite Z2Qc_inj_0 in Hle. apply Hle. lia. }
  assert (Hkn : Qc_of_Z (Z.of_nat k) ≤ Qc_of_Z (Z.of_nat n)).
  { apply (proj1 (Z2Qc_inj_le (Z.of_nat k) (Z.of_nat n))). lia. }
  unfold Qcdiv. split.
  - apply Qcmult_nonneg_nonneg; [done|]. apply Qclt_le_weak. by apply Qcinv_pos.
  - apply (Qcmult_le_mono_pos_r _ _ (Qc_of_Z (Z.of_nat n))); [done|].
    rewrite <-Qcmult_assoc, (Qcmult_comm (/ _)), Qcmult_inv_r, Qcmult_1_r, Qcmult_1_l.
    + done.
    + intros E. rewrite E in Hpos. by apply (Qclt_not_eq 0 0).
Qed.

Lemma mean_astype_float_bounds bs :
  bs ≠ [] → ∃ r, np.mean (np.astype_float bs) = Some r ∧ 0 ≤ r ≤ 1.
Proof.
  intros Hne. eexists. split; [by apply mean_astype_float|].
  apply fraction_in_unit_interval; [apply count_nonzero_le|].
  destruct bs; [done|simpl; lia].
Qed.

End indicator_mean.

(** ** The evaluator *)

Section evaluator.

Implicit Types (observed : list Qc) (batch : list (list Qc))
  (statistic : list Qc → option Qc).

Lemma evaluate_nonempty observed batch statistic :
  observed ≠ [] →
  batch ≠ [] →
  Pipeline.evaluate observed batch statistic =
    inr {| Pipeline.observed_stat := statistic observed;
           Pipeline.replicated_stats := statistic <$> batch;
           Pipeline.rank :=
             Some (Qc_of_Z (Z.of_nat (Pipeline.count_le statistic observed batch))
                   / Qc_of_Z (Z.of_nat (length batch))) |}.
Proof.
  intros Hobs Hne.
  destruct observed as [|y observed]; [done|].
  destruct batch as [|d batch]; [done|].
  unfold Pipeline.evaluate. cbv beta iota zeta.
  set (rs := statistic <$> d :: batch).
  rewrite mean_astype_float.
  - rewrite count_nonzero_fmap, length_fmap. unfold rs. by rewrite length_fmap.
  - by unfold rs.
Qed.

Lemma evaluate_no_observations batch statistic :
  Pipeline.evaluate [] batch statistic = inl EmptyBatch.
Proof. done. Qed.

Lemma evaluate_no_draws observed statistic :
  Pipeline.evaluate observed [] statistic = inl EmptyBatch.
Proof. by destruct observed. Qed.

(** [evaluate] returns exactly on non-empty observed data and a non-empty
    batch. *)
Lemma evaluate_returns observed batch statistic res :
  Pipeline.evaluate observed batch statistic = inr res →
  observed ≠ [] ∧ batch ≠ [].
Proof.
  destruct observed as [|y observed]; [done|].
  destruct batch as [|d batch]; [done|]. done.
Qed.

Lemma filter_length_Permutation {A} (f : A → bool) (l l' : list A) :
  l ≡ₚ l' → length (List.filter f l) = length (List.filter f l').
Proof.
  induction 1 as [|x l l' _ IH|x y l|l l' l'' _ IH _ IH'].
  - done.
  - cbn [List.filter]. destruct (f x); cbn [length]; by rewrite IH.
  - cbn [List.filter]. by destruct (f x), (f y).
  - by rewrite IH.
Qed.

Lemma count_le_Permutation statistic observed batch batch' :
  batch ≡ₚ batch' →
  Pipeline.count_le statistic observed batch = Pipeline.count_le statistic observed batch'.
Proof.
  intros HP. unfold Pipeline.count_le. apply filter_length_Permutation.
  by apply fmap_Permutation.
Qed.

Lemma count_le_bound statistic observed batch :
  (Pipeline.count_le statistic observed batch ≤ length batch)%nat.
Proof.
  unfold Pipeline.count_le.
  etrans; [apply List.filter_length_le|by rewrite length_fmap].
Qed.

End evaluator.

(** The observed data and a batch of the concrete scenario. *)
Lemma mean_one_to_five :
  np.mean (Qc_of_Z <$> [1; 2; 3; 4; 5]%Z) = Some (Qc_of_Z 3).
Proof. unfold np.mean. f_equal. apply Qc_is_canon. by vm_compute. Qed.

(** C1. For every observed data set with at least one observation, every
    non-empty batch of replicated data sets and every statistic, [evaluate]
    returns a [CheckResult] with the statistic of the observed data, the
    statistics of the batch in batch order, and a rank equal to the number
    of replicated statistics at or below the observed one divided by the
    batch size.  Zero observations, like zero draws, are an EmptyBatch
    error.  In particular, for the observed data [1,2,3,4,5] and any three
    replicated data sets with means 2, 3 and 5, with the mean as statistic,
    the result has observed statistic 3, replicated statistics [2, 3, 5]
    and rank 2/3. *)
Theorem evaluate_rank_is_fraction_at_or_below :
  (∀ observed batch statistic,
     observed ≠ [] →
     batch ≠ [] →
     Pipeline.evaluate observed batch statistic =
       inr {| Pipeline.observed_stat := statistic observed;
              Pipeline.replicated_stats := statistic <$> batch;
              Pipeline.rank :=
                Some (Qc_of_Z (Z.of_nat (Pipeline.count_le statistic observed batch))
                      / Qc_of_Z (Z.of_nat (length batch))) |}) ∧
  (∀ observed batch statistic,
     observed = [] ∨ batch = [] →
     Pipeline.evaluate observed batch statistic = inl EmptyBatch) ∧
  (∀ d1 d2 d3,
     np.mean d1 = Some (Qc_of_Z 2) →
     np.mean d2 = Some (Qc_of_Z 3) →
     np.mean d3 = Some (Qc_of_Z 5) →
     Pipeline.evaluate (Qc_of_Z <$> [1; 2; 3; 4; 5]%Z) [d1; d2; d3] np.mean =
       inr {| Pipeline.observed_stat := Some (Qc_of_Z 3);
              Pipeline.replicated_stats :=
                [Some (Qc_of_Z 2); Some (Qc_of_Z 3); Some (Qc_of_Z 5)];
              Pipeline.rank := Some (Q2Qc (2 # 3)) |}).
Proof.
  split_and!.
  - intros. by apply evaluate_nonempty.
  - intros observed batch statistic [-> | ->].
    + apply evaluate_no_observations.
    + apply evaluate_no_draws.
  - intros d1 d2 d3 H1 H2 H3.
    rewrite evaluate_nonempty by done.
    unfold Pipeline.count_le.
    rewrite mean_one_to_five, !fmap_cons, fmap_nil, H1, H2, H3.
    f_equal. all: repeat f_equal; apply Qc_is_canon; by vm_compute.
Qed.

Lemma evaluate_rank_is_fraction_at_or_below_witness :
  Pipeline.evaluate (Qc_of_Z <$> [1; 2; 3; 4; 5]%Z)
    [Qc_of_Z <$> [1; 3]%Z; Qc_of_Z <$> [3]%Z; Qc_of_Z <$> [4; 5; 6]%Z] np.mean =
    inr {| Pipeline.observed_stat := Some (Qc_of_Z 3);
           Pipeline.replicated_stats :=
             [Some (Qc_of_Z 2); Some (Qc_of_Z 3); Some (Qc_of_Z 5)];
           Pipeline.rank := Some (Q2Qc (2 # 3)) |} ∧
  (∃ res, Pipeline.evaluate (Qc_of_Z <$> [1; 2; 3]%Z)
            [Qc_of_Z <$> [1]%Z; Qc_of_Z <$> [4]%Z] np.mean = inr res ∧
          Pipeline.rank res =
            Some (Qc_of_Z (Z.of_nat (Pipeline.count_le np.mean
                     (Qc_of_Z <$> [1; 2; 3]%Z)
                     [Qc_of_Z <$> [1]%Z; Qc_of_Z <$> [4]%Z]))
                  / Qc_of_Z 2)) ∧
  Pipeline.evaluate [] [Qc_of_Z <$> [1]%Z] np.mean = inl EmptyBatch.
Proof.
  destruct evaluate_rank_is_fraction_at_or_below as (Hrank & Hempty & Hscenario).
  split_and!.
  - apply Hscenario; unfold np.mean; f_equal; apply Qc_is_canon; by vm_compute.
  - eexists. split; [by apply Hrank|]. reflexivity.
  - apply Hempty. by left.
Defined.

(** C7. The rank is invariant under any reordering of the batch: for every
    observed data set, every batch, every statistic and every permutation
    of the batch, [evaluate] ends the same way on both, with the same rank
    or with the same error; and for observed data with at least one
    observation and a non-empty batch it returns on both, with one and the
    same rank. *)
Theorem evaluate_rank_permutation_invariant observed batch batch' statistic :
  batch ≡ₚ batch' →
  Pipeline.rank_of (Pipeline.evaluate observed batch' statistic) =
    Pipeline.rank_of (Pipeline.evaluate observed batch statistic) ∧
  (observed ≠ [] → batch ≠ [] →
   ∃ res res',
     Pipeline.evaluate observed batch statistic = inr res ∧
     Pipeline.evaluate observed batch' statistic = inr res' ∧
     Pipeline.rank res' = Pipeline.rank res).
Proof.
  intros HP.
  assert (Hboth : observed ≠ [] → batch ≠ [] →
    ∃ res res',
      Pipeline.evaluate observed batch statistic = inr res ∧
      Pipeline.evaluate observed batch' statistic = inr res' ∧
      Pipeline.rank res' = Pipeline.rank res).
  { intros Hobs Hne.
    assert (Hne' : batch' ≠ []).
    { intros ->. by apply Permutation_nil_r in HP. }
    do 2 eexists. rewrite !evaluate_nonempty by done.
    split_and!; [done..|]. cbn [Pipeline.rank].
    by rewrite (count_le_Permutation _ _ _ _ HP), (Permutation_length HP). }
  split; [|done].
  destruct observed as [|y observed]; [done|].
  destruct (decide (batch = [])) as [->|Hne].
  - apply Permutation_nil_l in HP as ->. done.
  - destruct (Hboth ltac:(done) Hne) as (res & res' & -> & -> & Hr).
    cbn [Pipeline.rank_of]. by rewrite Hr.
Qed.

Lemma evaluate_rank_permutation_invariant_witness :
  Pipeline.rank_of
    (Pipeline.evaluate (Qc_of_Z <$> [1; 2; 3; 4; 5]%Z)
       [Qc_of_Z <$> [5]%Z; Qc_of_Z <$> [2]%Z; Qc_of_Z <$> [3]%Z] np.mean) =
  Pipeline.rank_of
    (Pipeline.evaluate (Qc_of_Z <$> [1; 2; 3; 4; 5]%Z)
       [Qc_of_Z <$> [2]%Z; Qc_of_Z <$> [3]%Z; Qc_of_Z <$> [5]%Z] np.mean) ∧
  ∃ res res',
    Pipeline.evaluate (Qc_of_Z <$> [1; 2; 3; 4; 5]%Z)
      [Qc_of_Z <$> [2]%Z; Qc_of_Z <$> [3]%Z; Qc_of_Z <$> [5]%Z] np.mean = inr res ∧
    Pipeline.evaluate (Qc_of_Z <$> [1; 2; 3; 4; 5]%Z)
      [Qc_of_Z <$> [5]%Z; Qc_of_Z <$> [2]%Z; Qc_of_Z <$> [3]%Z] np.mean = inr res' ∧
    Pipeline.rank res' = Pipeline.rank res.
Proof.
  assert (HP : [Qc_of_Z <$> [2]%Z; Qc_of_Z <$> [3]%Z; Qc_of_Z <$> [5]%Z] ≡ₚ
               [Qc_of_Z <$> [5]%Z; Qc_of_Z <$> [2]%Z; Qc_of_Z <$> [3]%Z]).
  { symmetry. apply (Permutation_cons_append [_; _]). }
  destruct (evaluate_rank_permutation_invariant
              (Qc_of_Z <$> [1; 2; 3; 4; 5]%Z) _ _ np.mean HP) as [H1 H2].
  split; [exact H1|]. apply H2; done.
Defined.

(** C9. A rank is a mean of indicator values over a non-empty array and so
    lies in the closed interval from 0 to 1: the probability that delta is
    at most zero, the probability that its size is below a tenth of a
    percent, and every rank that [evaluate] returns; and [evaluate] returns
    one for observed data with at least one observation and a non-empty
    batch. *)
Theorem rank_in_unit_interval :
  (∀ delta, delta ≠ [] →
     ∃ r, Undervote.prob_le_zero delta = Some r ∧ 0 ≤ r ≤ 1) ∧
  (∀ delta, delta ≠ [] →
     ∃ r, Undervote.prob_abs_lt_tenth_percent delta = Some r ∧ 0 ≤ r ≤ 1) ∧
  (∀ observed batch statistic res,
     Pipeline.evaluate observed batch statistic = inr res →
     ∃ r, Pipeline.rank res = Some r ∧ 0 ≤ r ≤ 1) ∧
  (∀ observed batch statistic, observed ≠ [] → batch ≠ [] →
     ∃ res r, Pipeline.evaluate observed batch statistic = inr res ∧
              Pipeline.rank res = Some r ∧ 0 ≤ r ≤ 1).
Proof.
  assert (Hrank : ∀ observed batch statistic, batch ≠ [] →
    0 ≤ Qc_of_Z (Z.of_nat (Pipeline.count_le statistic observed batch))
        / Qc_of_Z (Z.of_nat (length batch)) ≤ 1).
  { intros observed batch statistic Hne.
    apply fraction_in_unit_interval; [apply count_le_bound|].
    destruct batch; [done|simpl; lia]. }
  split_and!.
  - intros delta Hne. apply mean_astype_float_bounds.
    unfold np.less_equal. by destruct delta.
  - intros delta Hne. apply mean_astype_float_bounds.
    unfold np.less, np.abs. by destruct delta.
  - intros observed batch statistic res Hev.
    destruct (evaluate_returns _ _ _ _ Hev) as [Hobs Hne].
    rewrite evaluate_nonempty in Hev by done.
    injection Hev as <-. eexists. split; [done|]. by apply Hrank.
  - intros observed batch statistic Hobs Hne.
    rewrite evaluate_nonempty by done. do 2 eexists.
    split; [done|]. split; [done|]. by apply Hrank.
Qed.

Lemma rank_in_unit_interval_witness :
  (∃ r, Undervote.prob_le_zero (Qc_of_Z <$> [-1; 0; 2]%Z) = Some r ∧ 0 ≤ r ≤ 1) ∧
  (∃ r, Undervote.prob_abs_lt_tenth_percent (Qc_of_Z <$> [-1; 0; 2]%Z) = Some r
        ∧ 0 ≤ r ≤ 1) ∧
  (∃ res r, Pipeline.evaluate (Qc_of_Z <$> [1; 2; 3]%Z)
              [Qc_of_Z <$> [1]%Z; Qc_of_Z <$> [4]%Z] np.mean = inr res ∧
            Pipeline.rank res = Some r ∧ 0 ≤ r ≤ 1).
Proof.
  destruct rank_in_unit_interval as (H1 & H2 & _ & H4).
  split_and!; [apply H1|apply H2|apply H4]; done.
Defined.

(** ** Sampling and array lemmas *)

Section sampling.
Context {G A : Type}.
Implicit Types (f : G → A * G) (g : G).

Lemma sample_n_length f n g : length (sample_n f n g).1 = n.
Proof.
  revert g. induction n as [|n IH]; intros g; [done|].
  cbn [sample_n]. destruct (f g) as [x g1].
  specialize (IH g1). destruct (sample_n f n g1) as [xs g2].
  simpl in *. by rewrite IH.
Qed.

(** Mapping every variate of a sampler: same variates mapped, same final
    state. *)
Lemma sample_n_fmap {B} (h : A → B) f n g :
  sample_n (λ g, let '(x, g') := f g in (h x, g')) n g =
    (h <$> (sample_n f n g).1, (sample_n f n g).2).
Proof.
  revert g. induction n as [|n IH]; intros g; [done|].
  cbn [sample_n]. destruct (f g) as [x g1].
  rewrite IH. by destruct (sample_n f n g1) as [xs g2].
Qed.

End sampling.

Section arrays.

Lemma dot_T_ok beta X :
  length beta = shape1 X → np.dot_T beta X = inr (np.dot1 beta <$> rows X).
Proof. intros Hl. unfold np.dot_T. by rewrite decide_True. Qed.

Lemma broadcast_same_length op a a' :
  length a = length a' → np.broadcast op a a' = inr (zip_with op a a').
Proof. intros Hl. unfold np.broadcast. by rewrite decide_True. Qed.

Lemma add_same_length a a' :
  length a = length a' → np.add a a' = inr (zip_with Qcplus a a').
Proof. apply broadcast_same_length. Qed.

(** The array a predictive-check cell plots: linear predictor plus
    intercept plus noise, row by row. *)
Lemma predictor_plus_noise_lookup beta intercept (X : matrix) noise i x_i e_i :
  rows X !! i = Some x_i →
  noise !! i = Some e_i →
  zip_with Qcplus (np.add_scalar (np.dot1 beta <$> rows X) intercept) noise !! i =
    Some (np.dot1 beta x_i + intercept + e_i).
Proof.
  intros Hx He. apply lookup_zip_with_Some. exists (np.dot1 beta x_i + intercept), e_i.
  split_and!; [done| |done].
  unfold np.add_scalar. by rewrite !list_lookup_fmap, Hx.
Qed.

End arrays.

(** ** The replication cells *)

Section replication.
Context {G : Type} `{NumpyRandom G}.
Implicit Types (g : G) (X_test : matrix) (Y_test : list Qc).

Lemma normal_ok loc scale n g :
  0 ≤ scale →
  np_random.normal loc scale n g =
    inr ((λ z, loc + scale * z) <$> next_gauss n g, (sample_n gauss n g).2).
Proof.
  intros Hs. unfold np_random.normal.
  rewrite decide_False by by apply Qcle_not_lt.
  unfold mret, result_ret. f_equal. apply (sample_n_fmap (λ z, loc + scale * z)).
Qed.

Lemma standard_t_ok nu n g :
  0 < nu →
  np_random.standard_t nu n g =
    inr (next_student_t nu n g, (sample_n (student_t nu) n g).2).
Proof.
  intros Hnu. unfold np_random.standard_t.
  rewrite decide_False by by apply Qclt_not_le.
  unfold mret, result_ret, next_student_t. by destruct (sample_n _ n g).
Qed.

Lemma replicate_norm_ok (d : Resistant.draw_norm) X_test Y_test g :
  0 ≤ Resistant.s d →
  length (Resistant.b d) = shape1 X_test →
  length Y_test = shape0 X_test →
  Resistant.replicate_norm d X_test Y_test g =
    inr (zip_with Qcplus
           (np.add_scalar (np.dot1 (Resistant.b d) <$> rows X_test) (Resistant.c d))
           ((λ z, 0 + Resistant.s d * z) <$> next_gauss (shape0 X_test) g),
         (sample_n gauss (shape0 X_test) g).2).
Proof.
  intros Hs Hb HY. unfold Resistant.replicate_norm.
  rewrite normal_ok by done. cbn [mbind result_bind].
  rewrite dot_T_ok by done. cbn [mbind result_bind].
  rewrite add_same_length.
  - by rewrite HY.
  - unfold np.add_scalar, next_gauss.
    by rewrite !length_fmap, sample_n_length.
Qed.

Lemma replicate_t_ok (d : Resistant.draw_t) X_test Y_test g :
  0 < Resistant.df d →
  length (Resistant.bt d) = shape1 X_test →
  length Y_test = shape0 X_test →
  Resistant.replicate_t d X_test Y_test g =
    inr (zip_with Qcplus
           (np.add_scalar (np.dot1 (Resistant.bt d) <$> rows X_test) (Resistant.ct d))
           (np.scale (Resistant.st d)
              (next_student_t (Resistant.df d) (shape0 X_test) g)),
         (sample_n (student_t (Resistant.df d)) (shape0 X_test) g).2).
Proof.
  intros Hnu Hb HY. unfold Resistant.replicate_t.
  rewrite standard_t_ok by done. cbn [mbind result_bind].
  rewrite dot_T_ok by done. cbn [mbind result_bind].
  rewrite add_same_length.
  - by rewrite HY.
  - unfold np.add_scalar, np.scale, next_student_t.
    by rewrite !length_fmap, sample_n_length.
Qed.

End replication.

Section replication_claims.
Context {G : Type} `{NumpyRandom G}.
Implicit Types (g : G) (X_test : matrix) (Y_test : list Qc).

(** C2. Normal family: for a draw with beta, intercept and a scale sigma
    that numpy accepts, and test data whose rows match beta, the replicated
    value of row i is dot(beta, X[i]) + intercept + sigma * z_i, where z_i is
    the i-th standard-normal variate the generator hands out. *)
Theorem replicate_norm_row_values (d : Resistant.draw_norm) X_test Y_test g :
  0 ≤ Resistant.s d →
  length (Resistant.b d) = shape1 X_test →
  length Y_test = shape0 X_test →
  ∃ y g',
    Resistant.replicate_norm d X_test Y_test g = inr (y, g') ∧
    ∀ i x_i, rows X_test !! i = Some x_i →
      ∃ z_i, next_gauss (shape0 X_test) g !! i = Some z_i ∧
             y !! i = Some (np.dot1 (Resistant.b d) x_i + Resistant.c d
                            + Resistant.s d * z_i).
Proof.
  intros Hs Hb HY. do 2 eexists. split; [by apply replicate_norm_ok|].
  intros i x_i Hx.
  destruct (lookup_lt_is_Some_2 (next_gauss (shape0 X_test) g) i) as [z_i Hz].
  { unfold next_gauss. rewrite sample_n_length. by eapply lookup_lt_Some. }
  exists z_i. split; [done|].
  rewrite <-(Qcplus_0_l (Resistant.s d * z_i)).
  apply predictor_plus_noise_lookup; [done|].
  by rewrite list_lookup_fmap, Hz.
Qed.

(** C5. Student-t family: a draw whose degrees of freedom nu are not
    positive makes the replication fail with InvalidParameter, whatever the
    rest of the draw and the data are; for nu > 0 the replicated value of row
    i is dot(beta, X[i]) + intercept + sigma * t_i, where t_i is the i-th
    standard Student-t variate with nu degrees of freedom. *)
Theorem replicate_t_domain_and_row_values (d : Resistant.draw_t) X_test Y_test g :
  (Resistant.df d ≤ 0 →
     Resistant.replicate_t d X_test Y_test g = inl InvalidParameter) ∧
  (0 < Resistant.df d →
   length (Resistant.bt d) = shape1 X_test →
   length Y_test = shape0 X_test →
   ∃ y g',
     Resistant.replicate_t d X_test Y_test g = inr (y, g') ∧
     ∀ i x_i, rows X_test !! i = Some x_i →
       ∃ t_i, next_student_t (Resistant.df d) (shape0 X_test) g !! i = Some t_i ∧
              y !! i = Some (np.dot1 (Resistant.bt d) x_i + Resistant.ct d
                             + Resistant.st d * t_i)).
Proof.
  split.
  - intros Hnu. unfold Resistant.replicate_t, np_random.standard_t.
    by rewrite decide_True.
  - intros Hnu Hb HY. do 2 eexists. split; [by apply replicate_t_ok|].
    intros i x_i Hx.
    destruct (lookup_lt_is_Some_2
                (next_student_t (Resistant.df d) (shape0 X_test) g) i) as [t_i Ht].
    { unfold next_student_t. rewrite sample_n_length. by eapply lookup_lt_Some. }
    exists t_i. split; [done|].
    apply predictor_plus_noise_lookup; [done|].
    unfold np.scale. by rewrite list_lookup_fmap, Ht.
Qed.

End replication_claims.

Lemma replicate_norm_row_values_witness :
  ∃ y g',
    Resistant.replicate_norm draw_norm_one X_two Y_two (seed 1 : nat) = inr (y, g') ∧
    ∀ i x_i, rows X_two !! i = Some x_i →
      ∃ z_i, next_gauss (shape0 X_two) (seed 1 : nat) !! i = Some z_i ∧
             y !! i = Some (np.dot1 (Resistant.b draw_norm_one) x_i
                            + Resistant.c draw_norm_one
                            + Resistant.s draw_norm_one * z_i).
Proof.
  apply (replicate_norm_row_values draw_norm_one X_two Y_two (seed 1 : nat));
    [by vm_compute|reflexivity|reflexivity].
Defined.

Lemma replicate_t_domain_and_row_values_witness :
  Resistant.replicate_t draw_t_zero_df X_two Y_two (seed 1 : nat)
    = inl InvalidParameter ∧
  ∃ y g',
    Resistant.replicate_t draw_t_one X_two Y_two (seed 1 : nat) = inr (y, g') ∧
    ∀ i x_i, rows X_two !! i = Some x_i →
      ∃ t_i, next_student_t (Resistant.df draw_t_one) (shape0 X_two) (seed 1 : nat) !! i
               = Some t_i ∧
             y !! i = Some (np.dot1 (Resistant.bt draw_t_one) x_i
                            + Resistant.ct draw_t_one
                            + Resistant.st draw_t_one * t_i).
Proof.
  split.
  - apply (proj1 (replicate_t_domain_and_row_values
                    draw_t_zero_df X_two Y_two (seed 1 : nat))).
    by vm_compute.
  - apply (proj2 (replicate_t_domain_and_row_values
                    draw_t_one X_two Y_two (seed 1 : nat)));
      [by vm_compute|reflexivity|reflexivity].
Defined.

(** ** Indexing and the parameter sampler *)

Section indexing.
Context {A : Type}.
Implicit Types (a : list A) (i : Z).

Lemma getitem_nonneg a i x :
  (0 ≤ i)%Z → a !! Z.to_nat i = Some x → np.getitem a i = inr x.
Proof.
  intros Hi Hx. unfold np.getitem. cbv zeta.
  rewrite (decide_False (P := (i < 0)%Z)) by lia.
  apply lookup_lt_Some in Hx as Hlt.
  rewrite decide_True by lia. by rewrite Hx.
Qed.

Lemma getitem_negative a i x :
  (i < 0)%Z → (0 ≤ i + Z.of_nat (length a))%Z →
  a !! Z.to_nat (i + Z.of_nat (length a)) = Some x → np.getitem a i = inr x.
Proof.
  intros Hi Hi' Hx. unfold np.getitem. cbv zeta.
  rewrite (decide_True (P := (i < 0)%Z)) by lia.
  rewrite decide_True by lia. by rewrite Hx.
Qed.

Lemma getitem_out_of_range a i :
  (Z.of_nat (length a) ≤ i ∨ i < - Z.of_nat (length a))%Z →
  np.getitem a i = inl OutOfRange.
Proof.
  intros Hi. unfold np.getitem. cbv zeta.
  destruct (decide (i < 0)%Z); by rewrite decide_False by lia.
Qed.

End indexing.

Section sampler.
Implicit Types (tr : Resistant.traces_norm) (d : Resistant.draw_norm).

(** Storage order: the k-th item of [all_draws] is made of the k-th row of
    [beta] and the k-th entries of [sigma] and [intercept]. *)
Lemma all_draws_lookup tr k d :
  Pipeline.all_draws tr !! k = Some d ↔
    rows (Resistant.beta tr) !! k = Some (Resistant.b d) ∧
    Resistant.sigma tr !! k = Some (Resistant.s d) ∧
    Resistant.intercept tr !! k = Some (Resistant.c d).
Proof.
  unfold Pipeline.all_draws. rewrite lookup_zip_with_Some. split.
  - intros (bi & [sk ck] & -> & Hb & Hz).
    apply lookup_zip_with_Some in Hz as (? & ? & [= <- <-] & Hs & Hc). done.
  - intros (Hb & Hs & Hc). destruct d as [bi sk ck]; simpl in *.
    exists bi, (sk, ck). split_and!; [done..|].
    apply lookup_zip_with_Some. by exists sk, ck.
Qed.

Lemma all_draws_length tr :
  Pipeline.wf_traces tr → length (Pipeline.all_draws tr) = Pipeline.batch_size tr.
Proof.
  intros [Hs Hc]. unfold Pipeline.all_draws, Pipeline.batch_size, shape0 in *.
  rewrite length_zip_with, length_zip. lia.
Qed.

Lemma all_draws_total tr k :
  Pipeline.wf_traces tr → (k < Pipeline.batch_size tr)%nat →
  ∃ d, Pipeline.all_draws tr !! k = Some d.
Proof.
  intros Hwf Hk. apply lookup_lt_is_Some_2. by rewrite all_draws_length.
Qed.

(** Indexing at a position that numpy maps to [k] returns the k-th item. *)
Lemma draw_at_position tr i k d :
  Pipeline.wf_traces tr →
  Pipeline.all_draws tr !! k = Some d →
  (i = Z.of_nat k ∨ i = Z.of_nat k - Z.of_nat (Pipeline.batch_size tr))%Z →
  Pipeline.draw_at tr i = inr d.
Proof.
  intros [Hs Hc] Hd Hi.
  apply lookup_lt_Some in Hd as Hk.
  rewrite all_draws_length in Hk by done.
  apply all_draws_lookup in Hd as (Hb & Hsig & Hint).
  unfold Pipeline.batch_size, shape0 in *.
  assert (∀ {A} (a : list A) x,
            length a = length (rows (Resistant.beta tr)) →
            a !! k = Some x → np.getitem a i = inr x) as Hget.
  { intros A a x Hl Hx. destruct Hi as [-> | ->].
    - apply getitem_nonneg; [lia|]. by rewrite Nat2Z.id.
    - apply getitem_negative; [lia..|].
      rewrite Hl. by replace (Z.to_nat _) with k by lia. }
  unfold Pipeline.draw_at, Resistant.pick_norm.
  rewrite (Hget _ _ _ eq_refl Hb). cbn [mbind result_bind].
  rewrite (Hget _ _ _ Hs Hsig). cbn [mbind result_bind].
  rewrite (Hget _ _ _ Hc Hint). cbn [mbind result_bind].
  by destruct d.
Qed.

Lemma draw_at_out_of_range tr i :
  (Z.of_nat (Pipeline.batch_size tr) ≤ i ∨ i < - Z.of_nat (Pipeline.batch_size tr))%Z →
  Pipeline.draw_at tr i = inl OutOfRange.
Proof.
  intros Hi. unfold Pipeline.draw_at, Resistant.pick_norm.
  unfold Pipeline.batch_size, shape0 in Hi.
  rewrite (getitem_out_of_range (rows (Resistant.beta tr)) i Hi). done.
Qed.

End sampler.

(** The indexing of numpy on a batch of size B, for every integer: the
    items of [all_draws] in storage order, an index in 0 <= i < B counted
    from the start and one in -B <= i < 0 counted from the end, and
    OutOfRange exactly for i >= B or i < -B. *)
Lemma draw_at_index_rules (tr : Resistant.traces_norm) :
  Pipeline.wf_traces tr →
  let B := Pipeline.batch_size tr in
  length (Pipeline.all_draws tr) = B ∧
  (∀ k d, Pipeline.all_draws tr !! k = Some d ↔
     rows (Resistant.beta tr) !! k = Some (Resistant.b d) ∧
     Resistant.sigma tr !! k = Some (Resistant.s d) ∧
     Resistant.intercept tr !! k = Some (Resistant.c d)) ∧
  (∀ i, (0 ≤ i < Z.of_nat B)%Z →
     ∃ d, Pipeline.all_draws tr !! Z.to_nat i = Some d ∧
          Pipeline.draw_at tr i = inr d) ∧
  (∀ i, (- Z.of_nat B ≤ i < 0)%Z →
     ∃ d, Pipeline.all_draws tr !! Z.to_nat (i + Z.of_nat B) = Some d ∧
          Pipeline.draw_at tr i = inr d) ∧
  (∀ i, Pipeline.draw_at tr i = inl OutOfRange ↔
        (Z.of_nat B ≤ i ∨ i < - Z.of_nat B)%Z) ∧
  (∀ i, (0 ≤ i)%Z →
        (Pipeline.draw_at tr i = inl OutOfRange ↔ (Z.of_nat B ≤ i)%Z)) ∧
  (B = 3%nat → Pipeline.draw_at tr 5 = inl OutOfRange).
Proof.
  intros Hwf B.
  assert (Hin : ∀ i, (0 ≤ i < Z.of_nat B)%Z →
            ∃ d, Pipeline.all_draws tr !! Z.to_nat i = Some d ∧
                 Pipeline.draw_at tr i = inr d).
  { intros i Hi.
    destruct (all_draws_total tr (Z.to_nat i) Hwf) as [d Hd]; [unfold B in Hi; lia|].
    exists d. split; [done|]. eapply draw_at_position; [done..|]. lia. }
  assert (Hneg : ∀ i, (- Z.of_nat B ≤ i < 0)%Z →
            ∃ d, Pipeline.all_draws tr !! Z.to_nat (i + Z.of_nat B) = Some d ∧
                 Pipeline.draw_at tr i = inr d).
  { intros i Hi.
    destruct (all_draws_total tr (Z.to_nat (i + Z.of_nat B)) Hwf) as [d Hd];
      [unfold B in *; lia|].
    exists d. split; [done|]. eapply draw_at_position; [done..|].
    unfold B in *. lia. }
  assert (Hout : ∀ i, Pipeline.draw_at tr i = inl OutOfRange ↔
                      (Z.of_nat B ≤ i ∨ i < - Z.of_nat B)%Z).
  { intros i. split; [|apply draw_at_out_of_range].
    intros Herr.
    destruct (decide (Z.of_nat B ≤ i)%Z); [by left|].
    destruct (decide (i < - Z.of_nat B)%Z); [by right|].
    destruct (decide (0 ≤ i)%Z).
    - destruct (Hin i) as (d & _ & Hd); [lia|]. congruence.
    - destruct (Hneg i) as (d & _ & Hd); [lia|]. congruence. }
  split_and!; [by apply all_draws_length|apply all_draws_lookup|done..| |].
  - intros i Hi. rewrite Hout. lia.
  - intros HB. apply Hout. lia.
Qed.

(** C6. For a batch of size B, [all_draws] yields exactly B items in
    storage order; [draw_at(i)] returns the i-th draw, counted from 0 and
    equal to the i-th item of [all_draws], for every 0 <= i < B; and
    [draw_at(i)] fails with OutOfRange if and only if i >= B.  In
    particular [draw_at(5)] fails with OutOfRange on a batch of size 3. *)
Theorem draw_at_matches_all_draws (tr : Resistant.traces_norm) :
  Pipeline.wf_traces tr →
  let B := Pipeline.batch_size tr in
  length (Pipeline.all_draws tr) = B ∧
  (∀ (k : nat) d, Pipeline.all_draws tr !! k = Some d ↔
     rows (Resistant.beta tr) !! k = Some (Resistant.b d) ∧
     Resistant.sigma tr !! k = Some (Resistant.s d) ∧
     Resistant.intercept tr !! k = Some (Resistant.c d)) ∧
  (∀ i : nat, (i < B)%nat →
     ∃ d, Pipeline.all_draws tr !! i = Some d ∧
          Pipeline.draw_at tr (Z.of_nat i) = inr d) ∧
  (∀ i : nat, Pipeline.draw_at tr (Z.of_nat i) = inl OutOfRange ↔ (B ≤ i)%nat) ∧
  (B = 3%nat → Pipeline.draw_at tr 5 = inl OutOfRange).
Proof.
  intros Hwf B.
  destruct (draw_at_index_rules tr Hwf) as (Hlen & Hlook & Hin & _ & _ & Hout & Hfive).
  fold B in Hlen, Hin, Hout, Hfive.
  split_and!; [done..| | |done].
  - intros i Hi. destruct (Hin (Z.of_nat i)) as (d & Hd & Hat); [lia|].
    rewrite Nat2Z.id in Hd. by exists d.
  - intros i. rewrite Hout by lia. lia.
Qed.

Lemma draw_at_matches_all_draws_witness :
  length (Pipeline.all_draws traces_norm_three) = 3%nat ∧
  Pipeline.all_draws traces_norm_three !! 1%nat =
    Some {| Resistant.b := [Qc_of_Z 20]; Resistant.s := Qc_of_Z 5;
            Resistant.c := Qc_of_Z 2 |} ∧
  Pipeline.draw_at traces_norm_three 1 =
    inr {| Resistant.b := [Qc_of_Z 20]; Resistant.s := Qc_of_Z 5;
           Resistant.c := Qc_of_Z 2 |} ∧
  Pipeline.draw_at traces_norm_three 3 = inl OutOfRange ∧
  Pipeline.draw_at traces_norm_three 5 = inl OutOfRange.
Proof.
  assert (Hwf : Pipeline.wf_traces traces_norm_three) by (by split).
  destruct (draw_at_matches_all_draws traces_norm_three Hwf)
    as (Hlen & _ & Hin & Hout & Hfive).
  split_and!; [exact Hlen|done| |apply (Hout 3%nat); vm_compute; lia|by apply Hfive].
  destruct (Hin 1%nat) as (d & Hd & Hat); [vm_compute; lia|].
  change (Z.of_nat 1) with 1%Z in Hat. rewrite Hat.
  by injection Hd as <-.
Defined.

(** ** The Stan loop *)

Section stan_loop.
Context {R : Type} `{StanRandom R}.

Lemma poisson_rng_ok lam r :
  0 ≤ lam →
  Elevator.poisson_rng lam r = inr (Z.of_nat (poisson lam r).1, (poisson lam r).2).
Proof.
  intros Hl. unfold Elevator.poisson_rng.
  rewrite decide_False by by apply Qcle_not_lt.
  by destruct (poisson lam r).
Qed.

(** The loop from index [a+1] on fills the positions [a ..] with the next
    variates and keeps the positions before. *)
Lemma y_sim_loop lam m : ∀ a (y : list (option Qc)) r,
  0 ≤ lam →
  length y = (a + m)%nat →
  Elevator.for_in (seq (S a) m)
    (λ i y r,
       '(k, r') ← Elevator.poisson_rng lam r;
       y' ← Elevator.vector_assign y i (Qc_of_Z k);
       mret (y', r')) y r =
  inr (take a y ++ (Elevator.stored <$> (sample_n (poisson lam) m r).1),
       (sample_n (poisson lam) m r).2).
Proof.
  induction m as [|m IH]; intros a y r Hl Hy.
  - cbn [seq Elevator.for_in sample_n fst snd fmap list_fmap].
    rewrite app_nil_r, take_ge by lia. done.
  - cbn [seq Elevator.for_in].
    rewrite poisson_rng_ok by done. cbn [mbind result_bind].
    unfold Elevator.vector_assign. rewrite decide_True by lia.
    cbn [mbind result_bind mret result_ret pred].
    rewrite IH by (rewrite ?length_insert; lia || done).
    cbn [sample_n]. destruct (poisson lam r) as [k r1]. cbn [fst snd].
    destruct (sample_n (poisson lam) m r1) as [ks r2]. cbn [fst snd].
    f_equal. f_equal.
    rewrite (take_S_r _ a (Elevator.stored k)) by (apply list_lookup_insert_eq; lia).
    rewrite take_insert_ge by lia.
    by rewrite <-app_assoc.
Qed.

Lemma y_sim_ok N lam r :
  0 ≤ lam →
  Elevator.y_sim N lam r =
    inr (Elevator.stored <$> (sample_n (poisson lam) N r).1, (sample_n (poisson lam) N r).2).
Proof.
  intros Hl. unfold Elevator.y_sim.
  rewrite (y_sim_loop lam N 0) by (rewrite ?length_replicate; done).
  by rewrite take_0.
Qed.

Lemma sample_n_poisson_zero n : ∀ r,
  (sample_n (poisson 0) n r).1 = replicate n 0%nat.
Proof.
  induction n as [|n IH]; intros r; [done|].
  cbn [sample_n replicate]. pose proof (poisson_zero r) as Hz.
  destruct (poisson 0 r) as [k r1]. simpl in Hz. subst k.
  specialize (IH r1). destruct (sample_n (poisson 0) n r1) as [ks r2].
  simpl in *. by rewrite IH.
Qed.

End stan_loop.

Section poisson_claims.
Context {R : Type} `{StanRandom R}.

(** C8. Poisson family: every value of every replicated data set [y_sim]
    is a non-negative integer (and the data set has N values); a valid rate
    always yields a data set; with rate 0 the data set is all zeros. *)
Theorem y_sim_nonnegative_integers (N : nat) (lam : Qc) (r : R) :
  (∀ y r', Elevator.y_sim N lam r = inr (y, r') →
     length y = N ∧
     Forall (λ v, ∃ k : nat, v = Some (Qc_of_Z (Z.of_nat k))) y) ∧
  (0 ≤ lam → ∃ y r', Elevator.y_sim N lam r = inr (y, r')) ∧
  (lam = 0 → ∃ r', Elevator.y_sim N lam r = inr (replicate N (Some (Qc_of_Z 0)), r')).
Proof.
  split_and!.
  - intros y r' Hy. destruct (decide (0 ≤ lam)) as [Hl|Hl].
    + rewrite y_sim_ok in Hy by done. injection Hy as <- <-.
      split; [by rewrite length_fmap, sample_n_length|].
      apply Forall_fmap, Forall_forall. intros k _. by exists k.
    + destruct N as [|N].
      * injection Hy as <- <-. by split.
      * exfalso. unfold Elevator.y_sim in Hy. cbn [seq Elevator.for_in] in Hy.
        unfold Elevator.poisson_rng in Hy.
        rewrite decide_True in Hy by by apply Qcnot_le_lt. done.
  - intros Hl. rewrite y_sim_ok by done. by do 2 eexists.
  - intros ->. rewrite y_sim_ok by apply Qcle_refl. eexists.
    rewrite sample_n_poisson_zero, fmap_replicate. done.
Qed.

End poisson_claims.

Lemma y_sim_nonnegative_integers_witness :
  (∃ y r', Elevator.y_sim 3 (Qc_of_Z 2) (0%nat : nat) = inr (y, r')) ∧
  (∃ r', Elevator.y_sim 3 0 (0%nat : nat) = inr (replicate 3 (Some (Qc_of_Z 0)), r')).
Proof.
  split.
  - apply (proj1 (proj2 (y_sim_nonnegative_integers 3 (Qc_of_Z 2) (0%nat : nat)))).
    by vm_compute.
  - by apply (proj2 (proj2 (y_sim_nonnegative_integers 3 0 (0%nat : nat)))).
Defined.

(** ** Picking a posterior sample at random *)

Section picking.
Context {G : Type} `{NumpyRandom G}.
Implicit Types (g : G) (X_test : matrix) (Y_test : list Qc).

Lemma choice_arange (B : nat) g :
  (0 < B)%nat →
  ∃ k, (k < B)%nat ∧
       np_random.choice (np.arange B) g = inr (Z.of_nat k, (randint B g).2).
Proof.
  intros HB. pose proof (randint_lt B g HB) as Hk.
  unfold np_random.choice, np.arange. rewrite length_fmap, length_seq.
  destruct (randint B g) as [k g']. cbn [fst snd] in *.
  exists k. split; [done|].
  by rewrite list_lookup_fmap, lookup_seq_lt.
Qed.

Lemma pick_norm_random (tr : Resistant.traces_norm) X_test g :
  fits_norm tr X_test →
  ∃ i d g1,
    np_random.choice (np.arange (shape0 (Resistant.beta tr))) g = inr (i, g1) ∧
    Resistant.pick_norm tr i = inr d ∧
    length (Resistant.b d) = shape1 X_test ∧ 0 ≤ Resistant.s d.
Proof.
  intros (Hwf & HB & Hrows & Hsig).
  destruct (choice_arange _ g HB) as (k & Hk & Hch).
  destruct (all_draws_total tr k Hwf Hk) as [d Hd].
  exists (Z.of_nat k), d, (randint (Pipeline.batch_size tr) g).2.
  split_and!; [done|by eapply draw_at_position; eauto|..].
  - apply all_draws_lookup in Hd as (Hb & _ & _).
    by apply (Forall_lookup_1 _ _ _ _ Hrows Hb).
  - apply all_draws_lookup in Hd as (_ & Hs & _).
    by apply (Forall_lookup_1 _ _ _ _ Hsig Hs).
Qed.

Lemma resid_norm_cell_ok (tr : Resistant.traces_norm) X_test Y_test g :
  fits_norm tr X_test →
  length Y_test = shape0 X_test →
  ∃ resid_norm resid_pp_norm g',
    Resistant.resid_norm_cell tr X_test Y_test g =
      inr (resid_norm, resid_pp_norm, g') ∧
    length resid_norm = length Y_test ∧
    length resid_pp_norm = (100 * length Y_test)%nat.
Proof.
  intros Hfit HY.
  destruct (pick_norm_random tr X_test g Hfit) as (i & d & g1 & Hch & Hd & Hb & Hs).
  unfold Resistant.resid_norm_cell.
  rewrite Hch. cbn [mbind result_bind]. rewrite Hd. cbn [mbind result_bind].
  rewrite dot_T_ok by done. cbn [mbind result_bind].
  unfold np.sub. rewrite broadcast_same_length by by rewrite length_fmap.
  cbn [mbind result_bind].
  rewrite normal_ok by done. cbn [mbind result_bind].
  rewrite normal_ok by done. cbn [mbind result_bind].
  do 3 eexists. split; [done|]. split.
  - unfold np.add_scalar. rewrite length_fmap, length_zip_with, length_fmap.
    unfold shape0 in HY. lia.
  - unfold next_gauss. by rewrite length_fmap, sample_n_length.
Qed.

End picking.

Section picking_t.
Context {G : Type} `{NumpyRandom G}.
Implicit Types (g : G) (X_test : matrix) (Y_test : list Qc).

Lemma pick_t_random (tr : Resistant.traces_t) X_test g :
  fits_t tr X_test →
  ∃ i d g1,
    np_random.choice (np.arange (shape0 (Resistant.beta_t tr))) g = inr (i, g1) ∧
    Resistant.pick_t tr i = inr d ∧
    length (Resistant.bt d) = shape1 X_test ∧ 0 < Resistant.df d.
Proof.
  intros ((Hc & Hn & Hs) & HB & Hrows & Hnu). cbv zeta in *.
  destruct (choice_arange _ g HB) as (k & Hk & Hch).
  unfold shape0 in *.
  destruct (lookup_lt_is_Some_2 (rows (Resistant.beta_t tr)) k) as [bi Hbi]; [lia|].
  destruct (lookup_lt_is_Some_2 (Resistant.intercept_t tr) k) as [ck Hck]; [lia|].
  destruct (lookup_lt_is_Some_2 (Resistant.nu_t tr) k) as [nk Hnk]; [lia|].
  destruct (lookup_lt_is_Some_2 (Resistant.sigma_t tr) k) as [sk Hsk]; [lia|].
  exists (Z.of_nat k),
    {| Resistant.bt := bi; Resistant.ct := ck; Resistant.df := nk; Resistant.st := sk |},
    (randint (length (rows (Resistant.beta_t tr))) g).2.
  split_and!; [done| |..].
  - unfold Resistant.pick_t.
    assert (∀ {A} (a : list A) x,
              a !! k = Some x → np.getitem a (Z.of_nat k) = inr x) as Hget.
    { intros A a x Hx. apply getitem_nonneg; [lia|]. by rewrite Nat2Z.id. }
    rewrite (Hget _ _ _ Hbi). cbn [mbind result_bind].
    rewrite (Hget _ _ _ Hck). cbn [mbind result_bind].
    rewrite (Hget _ _ _ Hnk). cbn [mbind result_bind].
    rewrite (Hget _ _ _ Hsk). done.
  - by apply (Forall_lookup_1 _ _ _ _ Hrows Hbi).
  - by apply (Forall_lookup_1 _ _ _ _ Hnu Hnk).
Qed.

Lemma resid_t_cell_ok (tr : Resistant.traces_t) X_test Y_test g :
  fits_t tr X_test →
  length Y_test = shape0 X_test →
  ∃ resid_t resid_pp_t g',
    Resistant.resid_t_cell tr X_test Y_test g = inr (resid_t, resid_pp_t, g') ∧
    length resid_t = length Y_test ∧
    length resid_pp_t = (100 * length Y_test)%nat.
Proof.
  intros Hfit HY.
  destruct (pick_t_random tr X_test g Hfit) as (i & d & g1 & Hch & Hd & Hb & Hnu).
  unfold Resistant.resid_t_cell.
  rewrite Hch. cbn [mbind result_bind]. rewrite Hd. cbn [mbind result_bind].
  rewrite dot_T_ok by done. cbn [mbind result_bind].
  unfold np.sub. rewrite broadcast_same_length by by rewrite length_fmap.
  cbn [mbind result_bind].
  rewrite standard_t_ok by done. cbn [mbind result_bind].
  do 3 eexists. split; [done|]. split.
  - unfold np.add_scalar. rewrite length_fmap, length_zip_with, length_fmap.
    unfold shape0 in HY. lia.
  - unfold np.scale, next_student_t. by rewrite length_fmap, sample_n_length.
Qed.

End picking_t.

Section length_claims.
Context {G : Type} `{NumpyRandom G} {R : Type} `{StanRandom R}.
Implicit Types (g : G) (X_test : matrix) (Y_test : list Qc).

(** C3, as amended. The replicated data set of the normal and of the
    Student-t predictive check has exactly as many values as the test data
    (the row count of X_test, which is the length of Y_test), and the
    Poisson [y_sim] has exactly N values; the synthetic residuals
    [resid_pp_norm] and [resid_pp_t] of the residual checks have 100 times
    as many values as the test data. *)
Theorem replicated_data_lengths :
  (∀ (d : Resistant.draw_norm) X_test Y_test g,
     0 ≤ Resistant.s d →
     length (Resistant.b d) = shape1 X_test →
     length Y_test = shape0 X_test →
     ∃ y g', Resistant.replicate_norm d X_test Y_test g = inr (y, g') ∧
             length y = shape0 X_test) ∧
  (∀ (d : Resistant.draw_t) X_test Y_test g,
     0 < Resistant.df d →
     length (Resistant.bt d) = shape1 X_test →
     length Y_test = shape0 X_test →
     ∃ y g', Resistant.replicate_t d X_test Y_test g = inr (y, g') ∧
             length y = shape0 X_test) ∧
  (∀ (N : nat) (lam : Qc) (r : R),
     0 ≤ lam →
     ∃ y r', Elevator.y_sim N lam r = inr (y, r') ∧ length y = N) ∧
  (∀ (tr : Resistant.traces_norm) X_test Y_test g,
     fits_norm tr X_test →
     length Y_test = shape0 X_test →
     ∃ resid_norm resid_pp_norm g',
       Resistant.resid_norm_cell tr X_test Y_test g =
         inr (resid_norm, resid_pp_norm, g') ∧
       length resid_norm = shape0 X_test ∧
       length resid_pp_norm = (100 * shape0 X_test)%nat) ∧
  (∀ (tr : Resistant.traces_t) X_test Y_test g,
     fits_t tr X_test →
     length Y_test = shape0 X_test →
     ∃ resid_t resid_pp_t g',
       Resistant.resid_t_cell tr X_test Y_test g =
         inr (resid_t, resid_pp_t, g') ∧
       length resid_t = shape0 X_test ∧
       length resid_pp_t = (100 * shape0 X_test)%nat).
Proof.
  split_and!.
  - intros d X_test Y_test g Hs Hb HY. do 2 eexists.
    split; [by apply replicate_norm_ok|].
    unfold np.add_scalar, next_gauss.
    rewrite length_zip_with, !length_fmap, sample_n_length. unfold shape0. lia.
  - intros d X_test Y_test g Hnu Hb HY. do 2 eexists.
    split; [by apply replicate_t_ok|].
    unfold np.add_scalar, np.scale, next_student_t.
    rewrite length_zip_with, !length_fmap, sample_n_length. unfold shape0. lia.
  - intros N lam r Hl. do 2 eexists. split; [by apply y_sim_ok|].
    by rewrite length_fmap, sample_n_length.
  - intros tr X_test Y_test g Hfit HY.
    destruct (resid_norm_cell_ok tr X_test Y_test g Hfit HY)
      as (r1 & r2 & g' & -> & Hl1 & Hl2).
    exists r1, r2, g'. by rewrite <-HY.
  - intros tr X_test Y_test g Hfit HY.
    destruct (resid_t_cell_ok tr X_test Y_test g Hfit HY)
      as (r1 & r2 & g' & -> & Hl1 & Hl2).
    exists r1, r2, g'. by rewrite <-HY.
Qed.

End length_claims.

Lemma fits_norm_one : fits_norm traces_norm_one X_two.
Proof.
  split_and!; [by split|unfold Pipeline.batch_size, shape0; simpl; lia|..].
  - by repeat constructor.
  - repeat constructor. by vm_compute.
Qed.

Lemma fits_t_one : fits_t traces_t_one X_two.
Proof.
  split_and!; [done..|unfold shape0; simpl; lia| |].
  - by repeat constructor.
  - repeat constructor.
Qed.

Lemma replicated_data_lengths_witness :
  (∃ y g', Resistant.replicate_norm draw_norm_one X_two Y_two (seed 1 : nat)
             = inr (y, g') ∧ length y = shape0 X_two) ∧
  (∃ y g', Resistant.replicate_t draw_t_one X_two Y_two (seed 1 : nat)
             = inr (y, g') ∧ length y = shape0 X_two) ∧
  (∃ y r', Elevator.y_sim 3 (Qc_of_Z 2) (0%nat : nat) = inr (y, r') ∧
           length y = 3%nat) ∧
  (∃ resid_norm resid_pp_norm g',
     Resistant.resid_norm_cell traces_norm_one X_two Y_two (seed 1 : nat) =
       inr (resid_norm, resid_pp_norm, g') ∧
     length resid_norm = shape0 X_two ∧
     length resid_pp_norm = (100 * shape0 X_two)%nat) ∧
  (∃ resid_t resid_pp_t g',
     Resistant.resid_t_cell traces_t_one X_two Y_two (seed 1 : nat) =
       inr (resid_t, resid_pp_t, g') ∧
     length resid_t = shape0 X_two ∧
     length resid_pp_t = (100 * shape0 X_two)%nat).
Proof.
  destruct (replicated_data_lengths (G := nat) (R := nat))
    as (Hn & Ht & Hp & Hrn & Hrt).
  split_and!.
  - apply Hn; [by vm_compute|reflexivity|reflexivity].
  - apply Ht; [by vm_compute|reflexivity|reflexivity].
  - apply Hp. by vm_compute.
  - apply Hrn; [apply fits_norm_one|reflexivity].
  - apply Hrt; [apply fits_t_one|reflexivity].
Defined.

(** C3 as stated fails for the residual check: on a test set of two
    observations the synthetic residuals [resid_pp_norm] have 200 values. *)
Lemma resid_pp_norm_longer_than_data :
  ∃ resid_norm resid_pp_norm g',
    Resistant.resid_norm_cell traces_norm_one X_two Y_two (seed 1 : nat) =
      inr (resid_norm, resid_pp_norm, g') ∧
    shape0 X_two = 2%nat ∧ length Y_two = 2%nat ∧
    length resid_pp_norm = 200%nat ∧
    length resid_pp_norm ≠ shape0 X_two.
Proof.
  destruct (resid_norm_cell_ok traces_norm_one X_two Y_two (seed 1 : nat)
              fits_norm_one eq_refl) as (r1 & r2 & g' & Hcell & _ & Hlen).
  exists r1, r2, g'. split_and!; [done..| |]; rewrite Hlen; by vm_compute.
Qed.

(** ** The generator is the only source of entropy *)

Section entropy_claims.
Context {G1 : Type} `{NumpyRandom G1} {G2 : Type} `{NumpyRandom G2}.
Context {R1 : Type} `{StanRandom R1} {R2 : Type} `{StanRandom R2}.
Implicit Types (X_test : matrix) (Y_test : list Qc).



End entropy_claims.


(** ** The recommender callbacks *)

Section index_lemmas.

Lemma setitem_in_range {A} (a : list A) (i : Z) (x : A) :
  (0 ≤ i < Z.of_nat (length a))%Z →
  Recommender.setitem a i x = inr (<[Z.to_nat i := x]> a).
Proof.
  intros Hi. unfold Recommender.setitem. cbv zeta.
  rewrite (decide_False (P := (i < 0)%Z)) by lia.
  by rewrite decide_True by lia.
Qed.

Lemma indices_where_bound (mask : list bool) (i : Z) :
  i ∈ Recommender.indices_where mask → (0 ≤ i < Z.of_nat (length mask))%Z.
Proof.
  unfold Recommender.indices_where.
  intros ([k m] & -> & Hin)%list_elem_of_fmap.
  apply list_elem_of_In, filter_In in Hin as [Hin _].
  apply list_elem_of_In, elem_of_lookup_imap in Hin as (j & y & [= -> ->] & Hj).
  apply lookup_lt_Some in Hj. simpl. lia.
Qed.

Lemma argmax_from_bound (xs : list Qc) : ∀ best besti i,
  (besti < i)%nat →
  (Recommender.argmax_from best besti i xs < i + length xs)%nat.
Proof.
  induction xs as [|x xs IH]; intros best besti i Hlt; cbn [Recommender.argmax_from length].
  - lia.
  - destruct (decide (best < x)).
    + specialize (IH x i (S i)). lia.
    + specialize (IH best besti (S i)). lia.
Qed.

Lemma argmax_bound (xs : list Qc) (i : Z) :
  Recommender.argmax xs = inr i → (0 ≤ i < Z.of_nat (length xs))%Z.
Proof.
  destruct xs as [|x xs]; [done|]. intros [= <-].
  pose proof (argmax_from_bound xs x 0%nat 1%nat). cbn [length]. lia.
Qed.

Lemma foldl_insert_length {A} (x : A) (idx : list Z) : ∀ r : list A,
  length (foldl (λ r i, <[Z.to_nat i := x]> r) r idx) = length r.
Proof.
  induction idx as [|i idx IH]; intros r; [done|].
  cbn [foldl]. by rewrite IH, length_insert.
Qed.

End index_lemmas.

Section gui_lemmas.
Context {G : Type} `{NumpyRandom G}.
Variable components : matrix.
Variable sampling : list (list Qc) → list (option Qc) → G → result (list Qc) * G.

Local Abbreviation choose_next_index := (Recommender.choose_next_index components sampling).
Local Abbreviation _sample := (Recommender._sample components sampling).
Local Abbreviation record := (Recommender.record components sampling).
Local Abbreviation on_click := (Recommender.on_click components sampling).
Local Abbreviation presses := (Recommender.presses components sampling).
Local Abbreviation gui_invariant := (Recommender.gui_invariant components).

Lemma choice_elem {A} (a : list A) (g g' : G) (x : A) :
  np_random.choice a g = inr (x, g') → x ∈ a.
Proof.
  unfold np_random.choice. destruct (randint (length a) g) as [k g1].
  destruct (a !! k) as [y|] eqn:Hk; [|done].
  intros [= <- <-]. by eapply list_elem_of_lookup_2.
Qed.

(** [choose_next_index] returns a position of [labels]. *)
Lemma choose_next_index_range (labels : list (option Qc)) (g g' : G) (i : Z) :
  shape0 components = length labels →
  choose_next_index labels g = (inr i, g') →
  (0 ≤ i < Z.of_nat (length labels))%Z.
Proof.
  intros Hshape. unfold Recommender.choose_next_index. cbv zeta.
  destruct (decide _) as [_|_].
  - destruct (np_random.choice _ g) as [e|[j g1]] eqn:Hch; [done|].
    intros [= <- <-]. apply choice_elem, indices_where_bound in Hch.
    by rewrite length_fmap in Hch.
  - destruct (_ ≫= _) as [e|[X y]]; [done|].
    destruct (sampling X y g) as [[e|beta_sample] g1]; [done|].
    intros [= Harg <-].
    unfold np.dot_T in Harg. destruct (decide _); [|done].
    cbn [mbind result_bind mret result_ret] in Harg.
    apply argmax_bound in Harg.
    rewrite foldl_insert_length, length_fmap in Harg.
    unfold shape0 in Hshape. lia.
Qed.

(** [_sample] only writes [next_index]. *)
Lemma _sample_frame (st : Recommender.state) (g : G) :
  let st' := (_sample st g).1.1 in
  Recommender.labels st' = Recommender.labels st ∧
  Recommender._index_history st' = Recommender._index_history st ∧
  Recommender._label_history st' = Recommender._label_history st ∧
  (shape0 components = length (Recommender.labels st) →
   (0 ≤ Recommender.next_index st < Z.of_nat (length (Recommender.labels st)))%Z →
   (0 ≤ Recommender.next_index st' < Z.of_nat (length (Recommender.labels st)))%Z).
Proof.
  unfold Recommender._sample.
  destruct (choose_next_index (Recommender.labels st) g) as [[e|i] g'] eqn:Hch;
    cbn [fst snd Recommender.labels Recommender._index_history
         Recommender._label_history Recommender.next_index];
    split_and!; try done.
  intros Hshape _. by eapply choose_next_index_range.
Qed.

Lemma record_frame (v : Z) (st : Recommender.state) (g : G) :
  (0 ≤ Recommender.next_index st < Z.of_nat (length (Recommender.labels st)))%Z →
  let st' := (record v st g).1.1 in
  Recommender.labels st' =
    <[Z.to_nat (Recommender.next_index st) := Some (Qc_of_Z v)]> (Recommender.labels st) ∧
  Recommender._index_history st' =
    Recommender._index_history st ++ [Recommender.next_index st] ∧
  Recommender._label_history st' = Recommender._label_history st ++ [v] ∧
  (shape0 components = length (Recommender.labels st) →
   (0 ≤ Recommender.next_index st' < Z.of_nat (length (Recommender.labels st')))%Z).
Proof.
  intros Hi. unfold Recommender.record. rewrite setitem_in_range by done.
  match goal with |- context [_sample ?s g] => pose proof (_sample_frame s g) as Hs end.
  cbv zeta in *.
  cbn [Recommender.labels Recommender._index_history Recommender._label_history
       Recommender.next_index] in Hs.
  destruct Hs as (Hl & Hih & Hlh & Hnext).
  rewrite Hl, Hih, Hlh. split_and!; [done..|].
  intros Hshape. rewrite length_insert in *. by apply Hnext.
Qed.

Lemma on_click_invariant (p : Recommender.press) (st : Recommender.state) (g : G) n :
  gui_invariant n st → gui_invariant (S n) (on_click p st g).1.1.
Proof.
  intros (Hshape & Hi & Hih & Hlh).
  assert (∀ v, gui_invariant (S n) (record v st g).1.1) as Hrec.
  { intros v. destruct (record_frame v st g Hi) as (Hl & Hih' & Hlh' & Hnext).
    cbv zeta in *. unfold gui_invariant.
    rewrite Hih', Hlh', !length_app, Hl, length_insert. cbn [length].
    specialize (Hnext Hshape). rewrite Hl, length_insert in Hnext.
    repeat split; (done || lia). }
  destruct p; apply Hrec.
Qed.

Lemma presses_invariant (ps : list Recommender.press) : ∀ (st : Recommender.state) (g : G) n,
  gui_invariant n st → gui_invariant (n + length ps) (presses ps st g).1.
Proof.
  induction ps as [|p ps IH]; intros st g n Hinv; cbn [Recommender.presses length].
  - by rewrite Nat.add_0_r.
  - pose proof (on_click_invariant p st g n Hinv) as Hinv'.
    destruct (on_click p st g) as [[st' res] g']. cbn [fst] in Hinv'.
    replace (n + S (length ps))%nat with (S n + length ps)%nat by lia.
    by apply IH.
Qed.

(** C10. A press of the yes or no button writes exactly the entry of
    [labels] at the current [next_index] (1 for yes, 0 for no), leaves every
    other entry as it was, and appends that index to [_index_history] and
    that label to [_label_history].  From the creation of the object on,
    [next_index] is a position of [labels] at every press, and after any
    run of presses both histories have one entry per press, so they have
    equal length. *)
Theorem press_writes_one_label_and_one_history_pair :
  (∀ (p : Recommender.press) (st : Recommender.state) (g : G),
     (0 ≤ Recommender.next_index st < Z.of_nat (length (Recommender.labels st)))%Z →
     let v := match p with Recommender.yes => 1%Z | Recommender.no => 0%Z end in
     let st' := (on_click p st g).1.1 in
     Recommender.labels st' !! Z.to_nat (Recommender.next_index st)
       = Some (Some (Qc_of_Z v)) ∧
     (∀ j, j ≠ Z.to_nat (Recommender.next_index st) →
           Recommender.labels st' !! j = Recommender.labels st !! j) ∧
     length (Recommender.labels st') = length (Recommender.labels st) ∧
     Recommender._index_history st' =
       Recommender._index_history st ++ [Recommender.next_index st] ∧
     Recommender._label_history st' = Recommender._label_history st ++ [v]) ∧
  (∀ (labels0 : list (option Qc)) (g g0 : G) (st0 : Recommender.state)
     (ps : list Recommender.press),
     shape0 components = length labels0 →
     Recommender.__init__ components sampling labels0 g = (inr st0, g0) →
     let st := (presses ps st0 g0).1 in
     (0 ≤ Recommender.next_index st < Z.of_nat (length (Recommender.labels st)))%Z ∧
     length (Recommender._index_history st) = length ps ∧
     length (Recommender._label_history st) = length ps).
Proof.
  split.
  - intros p st g Hi v st'.
    assert (Recommender.labels st' =
              <[Z.to_nat (Recommender.next_index st) := Some (Qc_of_Z v)]>
                (Recommender.labels st) ∧
            Recommender._index_history st' =
              Recommender._index_history st ++ [Recommender.next_index st] ∧
            Recommender._label_history st' = Recommender._label_history st ++ [v])
      as (Hl & Hih & Hlh).
    { unfold st', v. destruct p;
        [destruct (record_frame 1 st g Hi) as (? & ? & ? & _)
        |destruct (record_frame 0 st g Hi) as (? & ? & ? & _)]; done. }
    rewrite Hl. split_and!; [|intros j Hj|by rewrite length_insert|done..].
    + apply list_lookup_insert_eq. lia.
    + by apply list_lookup_insert_ne.
  - intros labels0 g g0 st0 ps Hshape Hinit st.
    assert (gui_invariant 0 st0) as Hinv.
    { unfold Recommender.__init__ in Hinit.
      destruct (choose_next_index labels0 g) as [[e|i] g1] eqn:Hch; [done|].
      injection Hinit as <- <-. unfold gui_invariant.
      cbn [Recommender.labels Recommender.next_index Recommender._index_history
           Recommender._label_history].
      pose proof (choose_next_index_range _ _ _ _ Hshape Hch).
      repeat split; (done || lia). }
    destruct (presses_invariant ps st0 g0 0 Hinv) as (_ & Hi & Hih & Hlh).
    done.
Qed.

End gui_lemmas.


Lemma press_writes_one_label_and_one_history_pair_witness :
  (let st' := (Recommender.on_click X_two constant_fit Recommender.yes gui_two 0%nat).1.1 in
   Recommender.labels st' !! 1%nat = Some (Some (Qc_of_Z 1)) ∧
   (∀ j, j ≠ 1%nat → Recommender.labels st' !! j = Recommender.labels gui_two !! j) ∧
   length (Recommender.labels st') = 2%nat ∧
   Recommender._index_history st' = [1%Z] ∧
   Recommender._label_history st' = [1%Z]) ∧
  (let st := (Recommender.presses X_two constant_fit
                [Recommender.yes; Recommender.no]
                {| Recommender.labels := [None; None];
                   Recommender.next_index := 0;
                   Recommender._index_history := [];
                   Recommender._label_history := [] |} 1%nat).1 in
   (0 ≤ Recommender.next_index st < Z.of_nat (length (Recommender.labels st)))%Z ∧
   length (Recommender._index_history st) = 2%nat ∧
   length (Recommender._label_history st) = 2%nat).
Proof.
  destruct (press_writes_one_label_and_one_history_pair X_two constant_fit)
    as [Hpress Hrun].
  split.
  - apply (Hpress Recommender.yes gui_two 0%nat). simpl. lia.
  - apply (Hrun [None; None] 0%nat 1%nat _ [Recommender.yes; Recommender.no]);
      reflexivity.
Defined.

(** * Further properties of the notebooks' code *)

(** ** The train/test split *)

Section split_lemmas.
Context {A B : Type}.
Implicit Types (mask : list bool) (a : list A) (b : list B).

Lemma compress_length mask : ∀ a,
  length mask = length a →
  length (Split.compress mask a) = np.count_nonzero mask.
Proof.
  unfold np.count_nonzero.
  induction mask as [|m mask IH]; intros [|x a] Hl; try done.
  injection Hl as Hl. cbn [Split.compress List.filter].
  destruct m; cbn [length]; by rewrite IH.
Qed.

Lemma compress_invert_length mask : ∀ a,
  length mask = length a →
  (length (Split.compress mask a) + length (Split.compress (Split.invert mask) a)
   = length a)%nat.
Proof.
  induction mask as [|m mask IH]; intros [|x a] Hl; try done.
  injection Hl as Hl. specialize (IH a Hl).
  unfold Split.invert in *. rewrite fmap_cons. cbn [Split.compress].
  destruct m; cbn [negb length]; lia.
Qed.

Lemma compress_zip mask : ∀ a b,
  Split.compress mask (zip a b) = zip (Split.compress mask a) (Split.compress mask b).
Proof.
  induction mask as [|m mask IH]; intros [|x a] [|y b]; try done.
  - cbn [Split.compress zip zip_with]. by destruct m, (Split.compress mask a).
  - cbn [Split.compress zip zip_with]. destruct m; cbn [zip zip_with]; by rewrite <-IH.
Qed.

Lemma compress_Permutation mask : ∀ a,
  length mask = length a →
  Split.compress mask a ++ Split.compress (Split.invert mask) a ≡ₚ a.
Proof.
  induction mask as [|m mask IH]; intros [|x a] Hl; try done.
  injection Hl as Hl. specialize (IH a Hl).
  unfold Split.invert in *. rewrite fmap_cons. cbn [Split.compress].
  destruct m; cbn [negb].
  - cbn [app]. by apply Permutation_skip.
  - rewrite <-Permutation_middle. by apply Permutation_skip.
Qed.

End split_lemmas.

(** X1. The split keeps rows and targets aligned.  For a design matrix
    and a target array with one entry per row, and a mask of that
    length, the cell succeeds; the test set and the training set each have
    as many targets as rows, the test set has one row per [True] of the
    mask, the column count is unchanged, and the (row, target) pairs of the
    two sets together are exactly the pairs of the data. *)
Theorem train_test_split_aligned (X : matrix) (Y : list Qc) (test : list bool) :
  length Y = shape0 X →
  length test = shape0 X →
  ∃ sp,
    Split.train_test_split X Y test = inr sp ∧
    length (Split.Y_test sp) = shape0 (Split.X_test sp) ∧
    shape0 (Split.X_test sp) = np.count_nonzero test ∧
    length (Split.Y_train sp) = shape0 (Split.X_train sp) ∧
    (shape0 (Split.X_test sp) + shape0 (Split.X_train sp) = shape0 X)%nat ∧
    shape1 (Split.X_test sp) = shape1 X ∧
    shape1 (Split.X_train sp) = shape1 X ∧
    zip (rows (Split.X_test sp)) (Split.Y_test sp)
      ++ zip (rows (Split.X_train sp)) (Split.Y_train sp)
      ≡ₚ zip (rows X) Y.
Proof.
  intros HY Ht. unfold shape0 in *.
  assert (Hi : length (Split.invert test) = length (rows X)).
  { unfold Split.invert. by rewrite length_fmap. }
  unfold Split.train_test_split, Split.getitem_mask.
  rewrite !decide_True by congruence.
  cbn [mbind result_bind mret result_ret].
  eexists. split; [done|].
  cbn [Split.X_test Split.Y_test Split.X_train Split.Y_train shape0 shape1 rows].
  split_and!; try done.
  - rewrite !compress_length; congruence.
  - by apply compress_length.
  - rewrite !compress_length; congruence.
  - by apply compress_invert_length.
  - rewrite <-!compress_zip. apply compress_Permutation.
    rewrite length_zip. lia.
Qed.

Lemma train_test_split_aligned_witness :
  ∃ sp,
    Split.train_test_split X_two Y_two [false; true] = inr sp ∧
    length (Split.Y_test sp) = shape0 (Split.X_test sp) ∧
    shape0 (Split.X_test sp) = np.count_nonzero [false; true] ∧
    length (Split.Y_train sp) = shape0 (Split.X_train sp) ∧
    (shape0 (Split.X_test sp) + shape0 (Split.X_train sp) = shape0 X_two)%nat ∧
    shape1 (Split.X_test sp) = shape1 X_two ∧
    shape1 (Split.X_train sp) = shape1 X_two ∧
    zip (rows (Split.X_test sp)) (Split.Y_test sp)
      ++ zip (rows (Split.X_train sp)) (Split.Y_train sp)
      ≡ₚ zip (rows X_two) Y_two.
Proof. apply train_test_split_aligned; reflexivity. Defined.

(** X2. The split succeeds exactly when the mask, the targets and the rows
    of the design matrix are equally many; otherwise it stops with an index
    error and with no other error. *)
Theorem train_test_split_domain (X : matrix) (Y : list Qc) (test : list bool) :
  ((∃ sp, Split.train_test_split X Y test = inr sp) ↔
     length test = shape0 X ∧ length Y = shape0 X) ∧
  (∀ e, Split.train_test_split X Y test = inl e → e = OutOfRange).
Proof.
  unfold Split.train_test_split, Split.getitem_mask, shape0.
  destruct (decide (length test = length (rows X))) as [Ht|Ht];
    cbn [mbind result_bind].
  - destruct (decide (length test = length Y)) as [HY|HY]; cbn [mbind result_bind].
    + assert (Hi : length (Split.invert test) = length test).
      { unfold Split.invert. by rewrite length_fmap. }
      rewrite !decide_True by congruence. cbn [mbind result_bind].
      split; [|done]. split; [intros _; split; congruence|by eexists].
    + split; [|by intros e [= <-]].
      split; [by intros [sp ?]|]. intros [_ HY']. congruence.
  - split; [|by intros e [= <-]].
    split; [by intros [sp ?]|]. by intros [Ht' _].
Qed.

Lemma train_test_split_domain_witness :
  ∃ sp, Split.train_test_split X_two Y_two [false; true] = inr sp.
Proof.
  apply (proj2 (proj1 (train_test_split_domain X_two Y_two [false; true]))).
  split; reflexivity.
Defined.

(** ** The predictive-check cells as a whole *)

Section cells_as_a_whole.
Context {G : Type} `{NumpyRandom G}.
Implicit Types (g : G) (X_test : matrix) (Y_test : list Qc).

Lemma for_range_all {A} (P : A → Prop) (body : G → result (A * G)) (n : nat) :
  (∀ g, ∃ x g', body g = inr (x, g') ∧ P x) →
  ∀ g, ∃ xs g', Resistant.for_range n body g = inr (xs, g') ∧
                length xs = n ∧ Forall P xs.
Proof.
  intros Hbody. induction n as [|n IH]; intros g.
  - by exists [], g.
  - destruct (Hbody g) as (x & g1 & Hx & HP).
    destruct (IH g1) as (xs & g2 & Hxs & Hlen & HPs).
    exists (x :: xs), g2. cbn [Resistant.for_range].
    rewrite Hx. cbn [mbind result_bind]. rewrite Hxs. cbn [mbind result_bind].
    split_and!; [done|by rewrite <-Hlen|by constructor].
Qed.

Lemma column0_ok X_test :
  shape1 X_test ≠ 0%nat →
  ∃ x0, Resistant.column0 X_test = inr x0 ∧ length x0 = shape0 X_test.
Proof.
  intros HX. unfold Resistant.column0. rewrite decide_False by done.
  eexists. split; [done|]. by rewrite length_fmap.
Qed.


Lemma plot_ok (x y : list Qc) :
  length x = length y → Resistant.plot x y = inr ().
Proof. intros Hl. unfold Resistant.plot. by rewrite decide_True. Qed.


Lemma broadcast_length op (a a' r : list Qc) :
  length a = length a' → np.broadcast op a a' = inr r → length r = length a.
Proof.
  intros Hl. rewrite broadcast_same_length by done.
  intros [= <-]. rewrite length_zip_with. lia.
Qed.

(** Where both [plt.plot] calls of a panel get arrays of one length, the
    panel is the replication of its sample. *)
Lemma panel_norm_replicate (d : Resistant.draw_norm) X_test Y_test g :
  shape1 X_test ≠ 0%nat →
  length Y_test = shape0 X_test →
  Resistant.panel_norm d X_test Y_test g =
    Resistant.replicate_norm d X_test Y_test g.
Proof.
  intros HX HY. unfold Resistant.panel_norm, Resistant.replicate_norm.
  destruct (np_random.normal 0 (Resistant.s d) (length Y_test) g)
    as [e|[epsilon g']] eqn:Hnormal; [done|].
  cbn [mbind result_bind].
  destruct (column0_ok X_test HX) as (x0 & -> & Hx0). cbn [mbind result_bind].
  rewrite plot_ok by congruence. cbn [mbind result_bind].
  destruct (np.dot_T (Resistant.b d) X_test) as [e|mu] eqn:Hmu; [done|].
  cbn [mbind result_bind].
  destruct (np.add (np.add_scalar mu (Resistant.c d)) epsilon) as [e|y] eqn:Hy;
    [done|].
  cbn [mbind result_bind].
  rewrite plot_ok; [done|].
  assert (Hlmu : length mu = shape0 X_test).
  { unfold np.dot_T in Hmu. destruct (decide _); [|done].
    injection Hmu as <-. by rewrite length_fmap. }
  assert (Hleps : length epsilon = length Y_test).
  { unfold np_random.normal in Hnormal. destruct (decide _); [done|].
    injection Hnormal as Heq. apply (f_equal fst) in Heq. cbn [fst] in Heq.
    rewrite <-Heq. apply sample_n_length. }
  unfold np.add in Hy. apply broadcast_length in Hy.
  - rewrite Hx0, Hy. unfold np.add_scalar. by rewrite length_fmap.
  - unfold np.add_scalar. rewrite length_fmap. congruence.
Qed.

Lemma panel_t_replicate (d : Resistant.draw_t) X_test Y_test g :
  shape1 X_test ≠ 0%nat →
  length Y_test = shape0 X_test →
  Resistant.panel_t d X_test Y_test g =
    Resistant.replicate_t d X_test Y_test g.
Proof.
  intros HX HY. unfold Resistant.panel_t, Resistant.replicate_t.
  destruct (np_random.standard_t (Resistant.df d) (length Y_test) g)
    as [e|[t g']] eqn:Ht; [done|].
  cbn [mbind result_bind].
  destruct (column0_ok X_test HX) as (x0 & -> & Hx0). cbn [mbind result_bind].
  rewrite plot_ok by congruence. cbn [mbind result_bind].
  destruct (np.dot_T (Resistant.bt d) X_test) as [e|mu] eqn:Hmu; [done|].
  cbn [mbind result_bind].
  destruct (np.add (np.add_scalar mu (Resistant.ct d)) (np.scale (Resistant.st d) t))
    as [e|y] eqn:Hy; [done|].
  cbn [mbind result_bind].
  rewrite plot_ok; [done|].
  assert (Hlmu : length mu = shape0 X_test).
  { unfold np.dot_T in Hmu. destruct (decide _); [|done].
    injection Hmu as <-. by rewrite length_fmap. }
  assert (Hlt : length t = length Y_test).
  { unfold np_random.standard_t in Ht. destruct (decide _); [done|].
    injection Ht as Heq. apply (f_equal fst) in Heq. cbn [fst] in Heq.
    rewrite <-Heq. apply sample_n_length. }
  unfold np.add in Hy. apply broadcast_length in Hy.
  - rewrite Hx0, Hy. unfold np.add_scalar. by rewrite length_fmap.
  - unfold np.add_scalar, np.scale. rewrite !length_fmap. congruence.
Qed.

Lemma ppc_norm_iter_ok (tr : Resistant.traces_norm) X_test Y_test g :
  fits_norm tr X_test →
  shape1 X_test ≠ 0%nat →
  length Y_test = shape0 X_test →
  ∃ y g',
    Resistant.ppc_norm_iter tr X_test Y_test g = inr (y, g') ∧
    length y = length Y_test ∧
    ∃ d g0, d ∈ Pipeline.all_draws tr ∧
            Resistant.replicate_norm d X_test Y_test g0 = inr (y, g').
Proof.
  intros (Hwf & HB & Hrows & Hsig) HX HY.
  destruct (choice_arange _ g HB) as (k & Hk & Hch).
  destruct (all_draws_total tr k Hwf Hk) as [d Hd].
  assert (Hpick : Resistant.pick_norm tr (Z.of_nat k) = inr d).
  { eapply draw_at_position; eauto. }
  pose proof Hd as Hd'. apply all_draws_lookup in Hd' as (Hb & Hs & _).
  pose proof (Forall_lookup_1 _ _ _ _ Hrows Hb) as Hlen.
  pose proof (Forall_lookup_1 _ _ _ _ Hsig Hs) as Hpos. cbv beta in Hlen, Hpos.
  set (g1 := (randint (Pipeline.batch_size tr) g).2) in *.
  pose proof (replicate_norm_ok d X_test Y_test g1 Hpos Hlen HY) as Hrep.
  unfold Resistant.ppc_norm_iter. unfold Pipeline.batch_size in Hch.
  rewrite Hch. cbn [mbind result_bind]. rewrite Hpick. cbn [mbind result_bind].
  rewrite panel_norm_replicate by done.
  rewrite Hrep. do 2 eexists. split_and!; [done| |].
  - unfold np.add_scalar, next_gauss.
    rewrite length_zip_with, !length_fmap, sample_n_length. unfold shape0 in *. lia.
  - exists d, g1. split; [by eapply list_elem_of_lookup_2|done].
Qed.

Lemma ppc_t_iter_ok (tr : Resistant.traces_t) X_test Y_test g :
  fits_t tr X_test →
  shape1 X_test ≠ 0%nat →
  length Y_test = shape0 X_test →
  ∃ y g',
    Resistant.ppc_t_iter tr X_test Y_test g = inr (y, g') ∧
    length y = length Y_test.
Proof.
  intros Hfit HX HY.
  destruct (pick_t_random tr X_test g Hfit) as (i & d & g1 & Hch & Hd & Hb & Hnu).
  unfold Resistant.ppc_t_iter.
  rewrite Hch. cbn [mbind result_bind]. rewrite Hd. cbn [mbind result_bind].
  rewrite panel_t_replicate by done.
  rewrite replicate_t_ok by done. do 2 eexists. split; [done|].
  unfold np.add_scalar, np.scale, next_student_t.
  rewrite length_zip_with, !length_fmap, sample_n_length. unfold shape0 in *. lia.
Qed.

(** X3. On a fit that matches the test data, a test matrix with at least
    one column and as many targets as rows, the normal predictive-check
    cell runs to the end: it returns nine replicated data sets, each as
    long as the test data, and each the replication of a posterior sample
    of the fit. *)
Theorem ppc_norm_cell_nine_panels (tr : Resistant.traces_norm) X_test Y_test g :
  fits_norm tr X_test →
  shape1 X_test ≠ 0%nat →
  length Y_test = shape0 X_test →
  ∃ panels g',
    Resistant.ppc_norm_cell tr X_test Y_test g = inr (panels, g') ∧
    length panels = 9%nat ∧
    Forall (λ y, length y = length Y_test ∧
                 ∃ d g0 g1, d ∈ Pipeline.all_draws tr ∧
                   Resistant.replicate_norm d X_test Y_test g0 = inr (y, g1))
           panels.
Proof.
  intros Hfit HX HY. unfold Resistant.ppc_norm_cell.
  apply for_range_all. intros g0.
  destruct (ppc_norm_iter_ok tr X_test Y_test g0 Hfit HX HY)
    as (y & g' & Hy & Hlen & d & g1 & Hd & Hrep).
  exists y, g'. split_and!; [done..|]. by exists d, g1, g'.
Qed.

(** X4. On a fit that matches the test data and has positive degrees of
    freedom throughout, a test matrix with at least one column and as many
    targets as rows, the Student-t predictive-check cell runs to the end:
    nine replicated data sets, each as long as the test data. *)
Theorem ppc_t_cell_nine_panels (tr : Resistant.traces_t) X_test Y_test g :
  fits_t tr X_test →
  shape1 X_test ≠ 0%nat →
  length Y_test = shape0 X_test →
  ∃ panels g',
    Resistant.ppc_t_cell tr X_test Y_test g = inr (panels, g') ∧
    length panels = 9%nat ∧
    Forall (λ y, length y = length Y_test) panels.
Proof.
  intros Hfit HX HY. unfold Resistant.ppc_t_cell.
  apply for_range_all. intros g0.
  destruct (ppc_t_iter_ok tr X_test Y_test g0 Hfit HX HY) as (y & g' & Hy & Hlen).
  by exists y, g'.
Qed.


End cells_as_a_whole.

Lemma ppc_norm_cell_nine_panels_witness :
  ∃ panels g',
    Resistant.ppc_norm_cell traces_norm_one X_two Y_two (seed 1 : nat)
      = inr (panels, g') ∧
    length panels = 9%nat ∧
    Forall (λ y, length y = length Y_two ∧
                 ∃ d g0 g1, d ∈ Pipeline.all_draws traces_norm_one ∧
                   Resistant.replicate_norm d X_two Y_two g0 = inr (y, g1))
           panels.
Proof.
  apply ppc_norm_cell_nine_panels; [apply fits_norm_one|done|reflexivity].
Defined.

Lemma ppc_t_cell_nine_panels_witness :
  ∃ panels g',
    Resistant.ppc_t_cell traces_t_one X_two Y_two (seed 1 : nat)
      = inr (panels, g') ∧
    length panels = 9%nat ∧
    Forall (λ y, length y = length Y_two) panels.
Proof.
  apply ppc_t_cell_nine_panels; [apply fits_t_one|done|reflexivity].
Defined.


(** ** Choosing the next document *)

Section index_sets.

Lemma indices_where_spec (mask : list bool) (i : Z) :
  i ∈ Recommender.indices_where mask ↔
    (0 ≤ i)%Z ∧ mask !! Z.to_nat i = Some true.
Proof.
  unfold Recommender.indices_where. rewrite list_elem_of_fmap. split.
  - intros ([k m] & -> & Hin).
    apply list_elem_of_In, filter_In in Hin as [Hin Hm].
    apply list_elem_of_In, elem_of_lookup_imap in Hin as (j & y & [= -> ->] & Hj).
    cbn [fst snd] in *. subst y. rewrite Nat2Z.id. split; [lia|done].
  - intros [Hi Hm]. exists (Z.to_nat i, true). split; [cbn; lia|].
    apply list_elem_of_In, filter_In. split; [|done].
    apply list_elem_of_In, elem_of_lookup_imap. by exists (Z.to_nat i), true.
Qed.

(** The unlabelled and the labelled positions of a label array. *)
Lemma unlabeled_indices_spec (labels : list (option Qc)) (i : Z) :
  i ∈ Recommender.indices_where ((λ l : option Qc, bool_decide (l = None)) <$> labels) ↔
    (0 ≤ i)%Z ∧ labels !! Z.to_nat i = Some None.
Proof.
  rewrite indices_where_spec, list_lookup_fmap.
  destruct (labels !! Z.to_nat i) as [[v|]|]; cbn [fmap option_fmap option_map].
  - rewrite bool_decide_eq_false_2 by done.
    split; intros [_ ?]; done.
  - rewrite bool_decide_eq_true_2 by done. split; intros [? _]; done.
  - split; intros [_ ?]; done.
Qed.

Lemma labeled_indices_spec (labels : list (option Qc)) (i : Z) :
  i ∈ Recommender.indices_where
        (negb <$> ((λ l : option Qc, bool_decide (l = None)) <$> labels)) ↔
    (0 ≤ i)%Z ∧ ∃ v, labels !! Z.to_nat i = Some (Some v).
Proof.
  rewrite indices_where_spec, !list_lookup_fmap.
  destruct (labels !! Z.to_nat i) as [[v|]|]; cbn [fmap option_fmap option_map].
  - rewrite bool_decide_eq_false_2 by done. cbn [negb].
    split; intros [? _]; (split; [done|]); [by exists v|done].
  - rewrite bool_decide_eq_true_2 by done. cbn [negb].
    split; [by intros [_ ?]|by intros [_ [v ?]]].
  - split; [by intros [_ ?]|by intros [_ [v ?]]].
Qed.

End index_sets.

Section cold_start.
Context {G : Type} `{NumpyRandom G}.
Variable components : matrix.
Variable sampling : list (list Qc) → list (option Qc) → G → result (list Qc) * G.

Lemma choice_nonempty {A} (a : list A) (g : G) :
  a ≠ [] → ∃ x g', np_random.choice a g = inr (x, g').
Proof.
  intros Ha. unfold np_random.choice.
  pose proof (randint_lt (length a) g) as Hk.
  destruct (randint (length a) g) as [k g']. cbn [fst] in Hk.
  destruct (lookup_lt_is_Some_2 a k) as [x Hx].
  { apply Hk. destruct a; [done|cbn; lia]. }
  rewrite Hx. by exists x, g'.
Qed.

Lemma choice_empty {A} (g : G) :
  np_random.choice (@nil A) g = inl EmptyBatch.
Proof. unfold np_random.choice. by destruct (randint _ g). Qed.

(** X9. Cold start.  As long as the labels lack a yes or lack a no,
    [choose_next_index] never runs the Stan fit and never looks at the
    features: its result is the same for every fit and feature matrix.  An
    index it returns is a position of [labels] that is still unlabelled; it
    returns one whenever an unlabelled document is left, and raises
    (numpy's error for a choice from an empty array) when none is. *)
Theorem choose_next_index_cold_start (labels : list (option Qc)) (g : G) :
  (Recommender.count_eq labels 0 = 0 ∨ Recommender.count_eq labels 1 = 0)%nat →
  (∀ components' sampling',
     Recommender.choose_next_index components' sampling' labels g =
     Recommender.choose_next_index components sampling labels g) ∧
  (∀ i g', Recommender.choose_next_index components sampling labels g = (inr i, g') →
     (0 ≤ i)%Z ∧ labels !! Z.to_nat i = Some None) ∧
  ((∃ j, labels !! j = Some None) →
     ∃ i g', Recommender.choose_next_index components sampling labels g = (inr i, g')) ∧
  ((∀ j, labels !! j ≠ Some None) →
     Recommender.choose_next_index components sampling labels g = (inl EmptyBatch, g)).
Proof.
  intros Hcold.
  assert (Hmin : (Recommender.count_eq labels 0 `min` Recommender.count_eq labels 1 = 0)%nat)
    by lia.
  unfold Recommender.choose_next_index. cbv zeta.
  rewrite !(decide_True (P := (_ `min` _ = 0)%nat)) by done.
  split_and!.
  - intros components' sampling'. by rewrite decide_True by done.
  - intros i g'.
    destruct (np_random.choice _ g) as [e|[j g1]] eqn:Hch; [done|].
    intros [= <- <-]. by apply choice_elem, unlabeled_indices_spec in Hch.
  - intros [j Hj].
    destruct (choice_nonempty
                (Recommender.indices_where
                   ((λ l : option Qc, bool_decide (l = None)) <$> labels)) g)
      as (i & g' & ->).
    + intros Hnil.
      assert (Z.of_nat j ∈ Recommender.indices_where
                ((λ l : option Qc, bool_decide (l = None)) <$> labels)) as Hin.
      { apply unlabeled_indices_spec. rewrite Nat2Z.id. split; [lia|done]. }
      rewrite Hnil in Hin. by apply not_elem_of_nil in Hin.
    + by exists i, g'.
  - intros Hnone.
    assert (Recommender.indices_where
              ((λ l : option Qc, bool_decide (l = None)) <$> labels) = []) as ->.
    { apply elem_of_nil_inv. intros i [_ Hi]%unlabeled_indices_spec.
      by apply (Hnone (Z.to_nat i)). }
    by rewrite choice_empty.
Qed.

End cold_start.

Lemma choose_next_index_cold_start_witness :
  ∃ i g',
    Recommender.choose_next_index X_two constant_fit [None; Some (Qc_of_Z 1)] 0%nat
      = (inr i, g') ∧
    (0 ≤ i)%Z ∧ [None; Some (Qc_of_Z 1)] !! Z.to_nat i = Some None.
Proof.
  destruct (choose_next_index_cold_start X_two constant_fit
              [None; Some (Qc_of_Z 1)] 0%nat) as (_ & Hun & Hex & _);
    [by left; vm_compute|].
  destruct Hex as (i & g' & Hi); [by exists 0%nat|].
  exists i, g'. split; [done|]. by apply (Hun i g').
Defined.

(** ** Thompson sampling: what is fitted and what is chosen *)

Section argmax_lemmas.

Lemma argmax_from_spec (xs : list Qc) : ∀ (pre : list Qc) (best : Qc) (besti : nat),
  pre !! besti = Some best →
  (∀ j x, pre !! j = Some x → x ≤ best) →
  (∀ j x, (j < besti)%nat → pre !! j = Some x → x < best) →
  ∃ m, (pre ++ xs) !! Recommender.argmax_from best besti (length pre) xs = Some m ∧
       (∀ j x, (pre ++ xs) !! j = Some x → x ≤ m) ∧
       (∀ j x, (j < Recommender.argmax_from best besti (length pre) xs)%nat →
               (pre ++ xs) !! j = Some x → x < m).
Proof.
  induction xs as [|x xs IH]; intros pre best besti Hbest Hle Hlt.
  - cbn [Recommender.argmax_from]. rewrite app_nil_r. by exists best.
  - cbn [Recommender.argmax_from].
    replace (pre ++ x :: xs) with ((pre ++ [x]) ++ xs) by by rewrite <-app_assoc.
    replace (S (length pre)) with (length (pre ++ [x]))
      by (rewrite length_app; cbn; lia).
    pose proof (lookup_lt_Some _ _ _ Hbest) as Hbi.
    destruct (decide (best < x)) as [Hx|Hx].
    + apply IH.
      * by rewrite lookup_app_r, Nat.sub_diag by lia.
      * intros j y Hj. destruct (decide (j < length pre)%nat) as [Hjl|Hjl].
        -- rewrite lookup_app_l in Hj by done.
           apply Qclt_le_weak. eapply Qcle_lt_trans; [by eapply Hle|done].
        -- rewrite lookup_app_r in Hj by lia.
           destruct (j - length pre)%nat as [|?]; [|done].
           injection Hj as <-. apply Qcle_refl.
      * intros j y Hjl Hj. rewrite lookup_app_l in Hj by done.
        eapply Qcle_lt_trans; [by eapply Hle|done].
    + apply IH.
      * by rewrite lookup_app_l by lia.
      * intros j y Hj. destruct (decide (j < length pre)%nat) as [Hjl|Hjl].
        -- rewrite lookup_app_l in Hj by done. by eapply Hle.
        -- rewrite lookup_app_r in Hj by lia.
           destruct (j - length pre)%nat as [|?]; [|done].
           injection Hj as <-. by apply Qcnot_lt_le.
      * intros j y Hjl Hj. rewrite lookup_app_l in Hj by lia. by eapply Hlt.
Qed.

(** [argmax] returns the first position of the largest entry. *)
Lemma argmax_spec (xs : list Qc) (i : Z) :
  Recommender.argmax xs = inr i →
  (0 ≤ i)%Z ∧
  ∃ m, xs !! Z.to_nat i = Some m ∧
       (∀ j x, xs !! j = Some x → x ≤ m) ∧
       (∀ j x, (j < Z.to_nat i)%nat → xs !! j = Some x → x < m).
Proof.
  destruct xs as [|x xs]; [done|]. intros [= <-]. split; [lia|].
  rewrite Nat2Z.id.
  destruct (argmax_from_spec xs [x] x 0%nat) as (m & Hm & Hle & Hlt).
  - done.
  - intros [|j] y Hj; [|done]. injection Hj as <-. apply Qcle_refl.
  - intros j y Hj. lia.
  - by exists m.
Qed.

Lemma foldl_insert_lookup_other {A} (x : A) (idx : list Z) (j : nat) : ∀ r : list A,
  (∀ i, i ∈ idx → Z.to_nat i ≠ j) →
  foldl (λ r i, <[Z.to_nat i := x]> r) r idx !! j = r !! j.
Proof.
  induction idx as [|i idx IH]; intros r Hne; [done|].
  cbn [foldl]. rewrite IH by (intros i' Hi'; apply Hne; by right).
  apply list_lookup_insert_ne. apply Hne. by left.
Qed.

Lemma foldl_insert_lookup_hit {A} (x : A) (idx : list Z) (j : nat) : ∀ r : list A,
  (j < length r)%nat →
  (∃ i, i ∈ idx ∧ Z.to_nat i = j) →
  foldl (λ r i, <[Z.to_nat i := x]> r) r idx !! j = Some x.
Proof.
  induction idx as [|i idx IH]; intros r Hj (i' & Hin & Hi').
  - by apply elem_of_nil in Hin.
  - cbn [foldl].
    destruct (decide (Exists (λ i0, Z.to_nat i0 = j) idx)) as [Hex|Hex].
    + apply IH; [by rewrite length_insert|].
      apply Exists_exists in Hex as (i0 & ? & ?). exists i0.
      split; [by apply list_elem_of_In|done].
    + rewrite foldl_insert_lookup_other.
      * apply elem_of_cons in Hin as [->|Hin].
        -- subst j. by apply list_lookup_insert_eq.
        -- exfalso. apply Hex, Exists_exists. exists i'.
           split; [by apply list_elem_of_In|done].
      * intros i0 Hi0 Heq. apply Hex, Exists_exists. exists i0.
        split; [by apply list_elem_of_In|done].
Qed.

(** The masked estimates: -1000 at the labelled positions, the estimate
    elsewhere. *)
Lemma mask_labeled_lookup (est : list Qc) (labels : list (option Qc)) (j : nat) :
  (∀ v, labels !! j = Some (Some v) → (j < length est)%nat →
        mask_labeled est labels !! j = Some (- Qc_of_Z 1000)) ∧
  ((∀ v, labels !! j ≠ Some (Some v)) → mask_labeled est labels !! j = est !! j).
Proof.
  unfold mask_labeled. split.
  - intros v Hv Hj. apply foldl_insert_lookup_hit; [done|].
    exists (Z.of_nat j). rewrite Nat2Z.id. split; [|done].
    apply labeled_indices_spec. rewrite Nat2Z.id. split; [lia|by exists v].
  - intros Hun. apply foldl_insert_lookup_other.
    intros i [_ [v Hv]]%labeled_indices_spec <-. by apply (Hun v).
Qed.

Lemma mask_labeled_length (est : list Qc) (labels : list (option Qc)) :
  length (mask_labeled est labels) = length est.
Proof. unfold mask_labeled. apply foldl_insert_length. Qed.

End argmax_lemmas.

Section thompson.
Context {G : Type} `{NumpyRandom G}.
Variable components : matrix.
Variable sampling : list (list Qc) → list (option Qc) → G → result (list Qc) * G.

Local Abbreviation labeled_indices labels :=
  (Recommender.indices_where
     (negb <$> ((λ l : option Qc, bool_decide (l = None)) <$> labels))).

Lemma mapM_getitem {A} (a : list A) (idx : list Z) :
  Forall (λ i, (0 ≤ i < Z.of_nat (length a))%Z) idx →
  ∃ xs, mapM (np.getitem a) idx = inr xs ∧
        Forall2 (λ i x, a !! Z.to_nat i = Some x) idx xs.
Proof.
  induction 1 as [|i idx Hi _ (xs & Hxs & Hall)].
  - by exists [].
  - destruct (lookup_lt_is_Some_2 a (Z.to_nat i)) as [x Hx]; [lia|].
    exists (x :: xs). cbn [mapM].
    rewrite (getitem_nonneg a i x) by (done || lia). cbn [mbind result_bind].
    rewrite Hxs. split; [done|by constructor].
Qed.

(** With a yes and a no among the labels, [choose_next_index] is the
    position of the largest masked estimate under the fit of the labelled
    rows. *)
Lemma choose_next_index_warm (labels : list (option Qc)) (g : G) :
  (Recommender.count_eq labels 0 ≠ 0 ∧ Recommender.count_eq labels 1 ≠ 0)%nat →
  shape0 components = length labels →
  ∃ X y,
    Forall2 (λ i x, rows components !! Z.to_nat i = Some x) (labeled_indices labels) X ∧
    Forall2 (λ i l, labels !! Z.to_nat i = Some l) (labeled_indices labels) y ∧
    Recommender.choose_next_index components sampling labels g =
      match sampling X y g with
      | (inl e, g') => (inl e, g')
      | (inr beta_sample, g') =>
          (est ← np.dot_T beta_sample components;
           Recommender.argmax (mask_labeled est labels), g')
      end.
Proof.
  intros Hwarm Hshape.
  assert (Hrange : Forall (λ i, (0 ≤ i < Z.of_nat (length labels))%Z)
                     (labeled_indices labels)).
  { apply list.Forall_forall. intros i Hi%indices_where_bound.
    by rewrite !length_fmap in Hi. }
  destruct (mapM_getitem (rows components) (labeled_indices labels)) as (X & HX & HX2).
  { unfold shape0 in Hshape. by rewrite Hshape. }
  destruct (mapM_getitem labels (labeled_indices labels) Hrange) as (y & Hy & Hy2).
  exists X, y. split_and!; [done..|].
  unfold Recommender.choose_next_index. cbv zeta.
  rewrite decide_False by lia.
  rewrite HX. cbn [mbind result_bind]. rewrite Hy. cbn [mbind result_bind mret result_ret].
  done.
Qed.

(** X10. What the Stan model is fitted on.  With a yes and a no among the
    labels (and one label per row of [components]), the fit receives
    exactly the feature rows and the labels of the labelled documents, in
    index order: equally many rows and labels, no unlabelled entry among
    them, and only zeros and ones when the label array holds nothing else,
    as the model's declaration of [y] requires.  What [choose_next_index]
    then returns is the position of the largest masked estimate. *)
Theorem choose_next_index_fit_data (labels : list (option Qc)) (g : G) :
  (Recommender.count_eq labels 0 ≠ 0 ∧ Recommender.count_eq labels 1 ≠ 0)%nat →
  shape0 components = length labels →
  ∃ X y,
    length X = length y ∧
    Forall2 (λ i x, rows components !! Z.to_nat i = Some x) (labeled_indices labels) X ∧
    Forall2 (λ i l, labels !! Z.to_nat i = Some l) (labeled_indices labels) y ∧
    Forall (λ l, l ≠ None) y ∧
    (Forall (λ l, l = None ∨ l = Some (Qc_of_Z 0) ∨ l = Some (Qc_of_Z 1)) labels →
     Forall (λ l, l = Some (Qc_of_Z 0) ∨ l = Some (Qc_of_Z 1)) y) ∧
    Recommender.choose_next_index components sampling labels g =
      match sampling X y g with
      | (inl e, g') => (inl e, g')
      | (inr beta_sample, g') =>
          (est ← np.dot_T beta_sample components;
           Recommender.argmax (mask_labeled est labels), g')
      end.
Proof.
  intros Hwarm Hshape.
  destruct (choose_next_index_warm labels g Hwarm Hshape) as (X & y & HX & Hy & Heq).
  exists X, y.
  assert (Hsome : Forall (λ l, l ≠ None) y).
  { apply list.Forall_forall. intros l Hl.
    apply list_elem_of_lookup in Hl as [k Hk].
    destruct (Forall2_lookup_r _ _ _ _ _ Hy Hk) as (i & Hi & Hli).
    apply list_elem_of_lookup_2, labeled_indices_spec in Hi as [_ [v Hv]].
    congruence. }
  split_and!; [|done..| |done].
  - apply Forall2_length in HX, Hy. congruence.
  - intros Hbin. apply list.Forall_forall. intros l Hl.
    pose proof (proj1 (list.Forall_forall _ _) Hsome l Hl) as Hne.
    apply list_elem_of_lookup in Hl as [k Hk].
    destruct (Forall2_lookup_r _ _ _ _ _ Hy Hk) as (i & _ & Hli).
    destruct (Forall_lookup_1 _ _ _ _ Hbin Hli) as [?|?]; [done|done].
Qed.

(** X11. What Thompson sampling chooses.  When [choose_next_index]
    returns an index with a yes and a no among the labels, that index is a
    position of [labels] whose masked estimate is at least every estimate of
    an unlabelled document; and if some unlabelled document has an estimate
    above -1000, the returned document is unlabelled and carries that
    largest estimate. *)
Theorem choose_next_index_thompson (labels : list (option Qc)) (g g' : G) (i : Z) :
  (Recommender.count_eq labels 0 ≠ 0 ∧ Recommender.count_eq labels 1 ≠ 0)%nat →
  shape0 components = length labels →
  Recommender.choose_next_index components sampling labels g = (inr i, g') →
  ∃ X y beta_sample est m,
    sampling X y g = (inr beta_sample, g') ∧
    np.dot_T beta_sample components = inr est ∧
    (0 ≤ i < Z.of_nat (length labels))%Z ∧
    mask_labeled est labels !! Z.to_nat i = Some m ∧
    (∀ j e, labels !! j = Some None → est !! j = Some e → e ≤ m) ∧
    (∀ j e, labels !! j = Some None → est !! j = Some e → - Qc_of_Z 1000 < e →
            labels !! Z.to_nat i = Some None ∧ est !! Z.to_nat i = Some m).
Proof.
  intros Hwarm Hshape Hch.
  destruct (choose_next_index_warm labels g Hwarm Hshape) as (X & y & _ & _ & Heq).
  rewrite Heq in Hch.
  destruct (sampling X y g) as [[e|beta_sample] g1] eqn:Hfit; [done|].
  injection Hch as Harg <-.
  destruct (np.dot_T beta_sample components) as [e|est] eqn:Hest; [done|].
  cbn [mbind result_bind] in Harg.
  assert (Hlen : length est = length labels).
  { unfold np.dot_T in Hest. destruct (decide _); [|done]. injection Hest as <-.
    by rewrite length_fmap. }
  pose proof (argmax_bound _ _ Harg) as Hi. rewrite mask_labeled_length, Hlen in Hi.
  apply argmax_spec in Harg as (_ & m & Hm & Hle & _).
  assert (Hun : ∀ j e, labels !! j = Some None → est !! j = Some e → e ≤ m).
  { intros j e Hj He. apply (Hle j).
    rewrite (proj2 (mask_labeled_lookup est labels j)); [done|].
    intros v. by rewrite Hj. }
  exists X, y, beta_sample, est, m.
  do 2 (split; [done|]). split; [lia|]. do 2 (split; [done|]).
  intros j e Hj He Hbig.
  destruct (labels !! Z.to_nat i) as [[v|]|] eqn:Hli.
  - exfalso.
    rewrite (proj1 (mask_labeled_lookup est labels (Z.to_nat i)) v Hli) in Hm by lia.
    injection Hm as <-. apply (Qclt_not_le _ _ Hbig). by eapply Hun.
  - split; [done|].
    rewrite <-Hm. symmetry. apply (proj2 (mask_labeled_lookup est labels (Z.to_nat i))).
    intros v. by rewrite Hli.
  - apply lookup_ge_None in Hli. lia.
Qed.

End thompson.

Section exhausted.
Context {G : Type} `{NumpyRandom G}.
Variable components : matrix.
Variable sampling : list (list Qc) → list (option Qc) → G → result (list Qc) * G.

(** X12. When every document has been read.  With a yes and a no among
    the labels and no unlabelled document left, masking leaves every
    estimate at -1000, and [choose_next_index] returns index 0 whenever the
    fit succeeds with one coefficient per feature: the first document,
    which is already labelled, is shown again. *)
Theorem choose_next_index_all_read (labels : list (option Qc)) (g : G) :
  (Recommender.count_eq labels 0 ≠ 0 ∧ Recommender.count_eq labels 1 ≠ 0)%nat →
  shape0 components = length labels →
  (∀ j, labels !! j ≠ Some None) →
  (∀ X y, ∃ beta_sample g',
     sampling X y g = (inr beta_sample, g') ∧
     length beta_sample = shape1 components) →
  ∃ g' v,
    Recommender.choose_next_index components sampling labels g = (inr 0%Z, g') ∧
    labels !! 0%nat = Some (Some v).
Proof.
  intros Hwarm Hshape Hread Hfit.
  destruct (choose_next_index_warm components sampling labels g Hwarm Hshape)
    as (X & y & _ & _ & Heq).
  destruct (Hfit X y) as (beta_sample & g' & Hs & Hb).
  rewrite Hs, dot_T_ok in Heq by done. cbn [mbind result_bind] in Heq.
  set (est := np.dot1 beta_sample <$> rows components) in *.
  assert (Hlen : length est = length labels).
  { unfold est. by rewrite length_fmap. }
  assert (Hall : ∀ j, (j < length labels)%nat →
            mask_labeled est labels !! j = Some (- Qc_of_Z 1000)).
  { intros j Hj. destruct (lookup_lt_is_Some_2 labels j Hj) as [[v|] Hv].
    - apply (proj1 (mask_labeled_lookup est labels j) v Hv). lia.
    - by destruct (Hread j). }
  assert (Hne : labels ≠ []).
  { intros ->. by destruct Hwarm. }
  destruct (Recommender.argmax (mask_labeled est labels)) as [e|i] eqn:Harg.
  { unfold Recommender.argmax in Harg.
    destruct (mask_labeled est labels) as [|] eqn:Hm; [|done].
    apply (f_equal length) in Hm. rewrite mask_labeled_length, Hlen in Hm.
    destruct labels; done. }
  pose proof (argmax_bound _ _ Harg) as Hi. rewrite mask_labeled_length, Hlen in Hi.
  apply argmax_spec in Harg as (_ & m & Hm & _ & Hlt).
  rewrite Hall in Hm by lia. injection Hm as <-.
  assert (i = 0%Z) as ->.
  { destruct (decide (i = 0%Z)) as [|Hi0]; [done|]. exfalso.
    apply (Qclt_not_eq (- Qc_of_Z 1000) (- Qc_of_Z 1000)); [|done].
    apply (Hlt 0%nat); [lia|]. apply Hall. lia. }
  destruct (lookup_lt_is_Some_2 labels 0%nat) as [[v|] Hv]; [lia| |by destruct (Hread 0%nat)].
  by exists g', v.
Qed.

End exhausted.

Lemma choose_next_index_fit_data_witness :
  ∃ X y,
    length X = length y ∧
    Forall (λ l, l ≠ None) y ∧
    Recommender.choose_next_index X_three constant_fit labels_three 0%nat =
      match constant_fit X y 0%nat with
      | (inl e, g') => (inl e, g')
      | (inr beta_sample, g') =>
          (est ← np.dot_T beta_sample X_three;
           Recommender.argmax (mask_labeled est labels_three), g')
      end.
Proof.
  destruct (choose_next_index_fit_data X_three constant_fit labels_three 0%nat)
    as (X & y & Hlen & _ & _ & Hsome & _ & Heq);
    [split; by vm_compute|reflexivity|].
  by exists X, y.
Defined.

Lemma choose_next_index_thompson_witness :
  ∃ X y beta_sample est m,
    constant_fit X y 0%nat = (inr beta_sample, 0%nat) ∧
    np.dot_T beta_sample X_three = inr est ∧
    (0 ≤ 2 < Z.of_nat (length labels_three))%Z ∧
    mask_labeled est labels_three !! Z.to_nat 2 = Some m ∧
    (∀ j e, labels_three !! j = Some None → est !! j = Some e → e ≤ m) ∧
    (∀ j e, labels_three !! j = Some None → est !! j = Some e → - Qc_of_Z 1000 < e →
            labels_three !! Z.to_nat 2 = Some None ∧ est !! Z.to_nat 2 = Some m).
Proof.
  apply (choose_next_index_thompson X_three constant_fit labels_three 0%nat 0%nat 2%Z);
    [split; by vm_compute|reflexivity|by vm_compute].
Defined.

Lemma choose_next_index_all_read_witness :
  ∃ g' v,
    Recommender.choose_next_index X_two constant_fit labels_all_read 0%nat = (inr 0%Z, g') ∧
    labels_all_read !! 0%nat = Some (Some v).
Proof.
  apply choose_next_index_all_read.
  - split; by vm_compute.
  - reflexivity.
  - by intros [|[|j]].
  - intros X y. by exists (Qc_of_Z <$> [1; 2]%Z), 0%nat.
Defined.

(** ** The histories determine the labels *)

Section replaying.
Context {G : Type} `{NumpyRandom G}.
Variable components : matrix.
Variable sampling : list (list Qc) → list (option Qc) → G → result (list Qc) * G.

Local Abbreviation presses := (Recommender.presses components sampling).
Local Abbreviation on_click := (Recommender.on_click components sampling).
Local Abbreviation gui_invariant := (Recommender.gui_invariant components).

Lemma replay_length labels0 idx vs : length (replay labels0 idx vs) = length labels0.
Proof.
  unfold replay. generalize (zip idx vs). intros ps. revert labels0.
  induction ps as [|p ps IH]; intros labels0; [done|].
  cbn [foldl]. by rewrite IH, length_insert.
Qed.

(** What a run of presses adds to the state. *)
Lemma presses_trace (ps : list Recommender.press) :
  ∀ (st : Recommender.state) (g : G) n,
  gui_invariant n st →
  ∃ idx,
    length idx = length ps ∧
    Forall (λ i, (0 ≤ i < Z.of_nat (length (Recommender.labels st)))%Z) idx ∧
    Recommender._index_history (presses ps st g).1 = Recommender._index_history st ++ idx ∧
    Recommender._label_history (presses ps st g).1 =
      Recommender._label_history st ++ (label_of <$> ps) ∧
    Recommender.labels (presses ps st g).1 =
      replay (Recommender.labels st) idx (label_of <$> ps).
Proof.
  induction ps as [|p ps IH]; intros st g n Hinv.
  - exists []. cbn [Recommender.presses fst fmap list_fmap].
    by rewrite !app_nil_r.
  - pose proof Hinv as (_ & Hi & _ & _).
    pose proof (on_click_invariant components sampling p st g n Hinv) as Hinv'.
    assert (Hstep : Recommender.labels (on_click p st g).1.1 =
                      <[Z.to_nat (Recommender.next_index st) := Some (Qc_of_Z (label_of p))]>
                        (Recommender.labels st) ∧
                    Recommender._index_history (on_click p st g).1.1 =
                      Recommender._index_history st ++ [Recommender.next_index st] ∧
                    Recommender._label_history (on_click p st g).1.1 =
                      Recommender._label_history st ++ [label_of p]).
    { destruct p;
        [destruct (record_frame components sampling 1 st g Hi) as (? & ? & ? & _)
        |destruct (record_frame components sampling 0 st g Hi) as (? & ? & ? & _)];
        done. }
    destruct Hstep as (Hl & Hih & Hlh).
    cbn [Recommender.presses].
    destruct (on_click p st g) as [[st1 res] g1]. cbn [fst] in *.
    destruct (IH st1 g1 (S n) Hinv') as (idx & Hlen & Hrange & Hih' & Hlh' & Hl').
    exists (Recommender.next_index st :: idx).
    rewrite Hih', Hlh', Hl', Hih, Hlh, Hl, <-!app_assoc.
    rewrite Hl, length_insert in Hrange.
    split_and!; [cbn; lia|by constructor|done..].
Qed.

(** X13. The label array can be rebuilt from the two histories.  After
    any run of presses on a freshly created recommender, [labels] is the
    initial array with the recorded (index, label) pairs written into it
    oldest first; the recorded labels are, press by press, 1 for yes and 0
    for no; and every recorded index is a position of [labels]. *)
Theorem labels_replay_histories (labels0 : list (option Qc)) (g g0 : G)
    (st0 : Recommender.state) (ps : list Recommender.press) :
  shape0 components = length labels0 →
  Recommender.__init__ components sampling labels0 g = (inr st0, g0) →
  let st := (presses ps st0 g0).1 in
  Recommender.labels st =
    replay labels0 (Recommender._index_history st) (Recommender._label_history st) ∧
  Recommender._label_history st = label_of <$> ps ∧
  length (Recommender.labels st) = length labels0 ∧
  Forall (λ i, (0 ≤ i < Z.of_nat (length labels0))%Z) (Recommender._index_history st).
Proof.
  intros Hshape Hinit st.
  assert (Hst0 : gui_invariant 0 st0 ∧ Recommender.labels st0 = labels0 ∧
                 Recommender._index_history st0 = [] ∧
                 Recommender._label_history st0 = []).
  { unfold Recommender.__init__ in Hinit.
    destruct (Recommender.choose_next_index components sampling labels0 g)
      as [[e|i] g1] eqn:Hch; [done|].
    injection Hinit as <- <-.
    pose proof (choose_next_index_range _ _ _ _ _ _ Hshape Hch).
    unfold Recommender.gui_invariant.
    cbn [Recommender.labels Recommender.next_index Recommender._index_history
         Recommender._label_history].
    repeat split; (done || lia). }
  destruct Hst0 as (Hinv & Hl0 & Hih0 & Hlh0).
  destruct (presses_trace ps st0 g0 0%nat Hinv) as (idx & Hlen & Hrange & Hih & Hlh & Hl).
  unfold st. rewrite Hih, Hlh, Hl, Hih0, Hlh0, Hl0 in *. cbn [app].
  split_and!; [done..|by rewrite replay_length|done].
Qed.

End replaying.

Lemma labels_replay_histories_witness :
  let st := (Recommender.presses X_two constant_fit
               [Recommender.yes; Recommender.no]
               {| Recommender.labels := [None; None];
                  Recommender.next_index := 0;
                  Recommender._index_history := [];
                  Recommender._label_history := [] |} 1%nat).1 in
  Recommender.labels st =
    replay [None; None] (Recommender._index_history st) (Recommender._label_history st) ∧
  Recommender._label_history st = [1%Z; 0%Z] ∧
  length (Recommender.labels st) = 2%nat ∧
  Forall (λ i, (0 ≤ i < 2)%Z) (Recommender._index_history st).
Proof.
  apply (labels_replay_histories X_two constant_fit [None; None] 0%nat 1%nat _
           [Recommender.yes; Recommender.no]); reflexivity.
Defined.

(** ** The regret curve *)

Section regret.

(** The number of zeros of an integer array. *)
Local Abbreviation zeros h := (length (List.filter (λ x : Z, (x =? 0)%Z) h)).

Lemma cumsum_from_length (xs : list Z) : ∀ acc,
  length (Regret.cumsum_from acc xs) = length xs.
Proof.
  induction xs as [|x xs IH]; intros acc; [done|].
  cbn [Regret.cumsum_from length]. by rewrite IH.
Qed.

(** On a history of zeros and ones, the running sum of [1 - x] counts the
    zeros seen so far. *)
Lemma cumsum_from_regret (h : list Z) : ∀ acc k,
  Forall (λ x, x = 0 ∨ x = 1)%Z h →
  (k < length h)%nat →
  Regret.cumsum_from acc ((λ x, 1 - x)%Z <$> h) !! k =
    Some (acc + Z.of_nat (zeros (take (S k) h)))%Z.
Proof.
  induction h as [|x h IH]; intros acc k Hbin Hk; [cbn in Hk; lia|].
  apply list.Forall_cons in Hbin as [Hx Hbin].
  rewrite fmap_cons. cbn [Regret.cumsum_from].
  destruct k as [|k].
  - cbn [lookup list_lookup take List.filter]. f_equal.
    rewrite take_0. destruct Hx as [->| ->]; cbn; lia.
  - cbn [lookup list_lookup]. rewrite IH by (done || (cbn in Hk; lia)).
    f_equal. rewrite (firstn_cons (S k) x h). cbn [List.filter].
    destruct Hx as [->| ->]; cbn [Z.eqb length]; lia.
Qed.

(** X14. The regret plot.  For a label history of zeros and ones, the
    cumulative-regret curve and the dashed worst-case line have one point
    per round; at round k (counting from 0) the regret is the number of
    not-useful answers among the first k+1, which is k+1 minus the number
    of useful ones, and it never exceeds the worst-case line, whose value
    there is k+1. *)
Theorem cumulative_regret_counts_no (h : list Z) :
  Forall (λ x, x = 0 ∨ x = 1)%Z h →
  length (Regret.cumulative_regret h) = length h ∧
  length (Regret.worst_case h) = length h ∧
  ∀ k, (k < length h)%nat →
    Regret.cumulative_regret h !! k = Some (Z.of_nat (zeros (take (S k) h))) ∧
    Regret.worst_case h !! k = Some (Z.of_nat k + 1)%Z ∧
    (Z.of_nat (zeros (take (S k) h)) =
       Z.of_nat k + 1 - foldr Z.add 0 (take (S k) h))%Z ∧
    (0 ≤ Z.of_nat (zeros (take (S k) h)) ≤ Z.of_nat k + 1)%Z.
Proof.
  intros Hbin. split_and!.
  - unfold Regret.cumulative_regret, Regret.cumsum.
    by rewrite cumsum_from_length, length_fmap.
  - unfold Regret.worst_case, np.arange. by rewrite !length_fmap, length_seq.
  - intros k Hk. split; [|split; [|split]].
    + unfold Regret.cumulative_regret, Regret.cumsum.
      by rewrite cumsum_from_regret.
    + unfold Regret.worst_case, np.arange.
      by rewrite !list_lookup_fmap, lookup_seq_lt.
    + assert (Hgen : ∀ l : list Z, Forall (λ x, x = 0 ∨ x = 1)%Z l →
                (Z.of_nat (zeros l) = Z.of_nat (length l) - foldr Z.add 0 l)%Z).
      { induction 1 as [|x l [->| ->] _ IH]; cbn [List.filter Z.eqb foldr length]; lia. }
      rewrite Hgen by by apply Forall_take.
      rewrite length_take. lia.
    + pose proof (List.filter_length_le (λ x : Z, (x =? 0)%Z) (take (S k) h)) as Hle.
      rewrite length_take in Hle. lia.
Qed.

End regret.

Lemma cumulative_regret_counts_no_witness :
  Regret.cumulative_regret [1; 0; 0; 1]%Z !! 2%nat
    = Some (Z.of_nat (length (List.filter (λ x : Z, (x =? 0)%Z) (take 3 [1; 0; 0; 1]%Z)))) ∧
  Regret.worst_case [1; 0; 0; 1]%Z !! 2%nat = Some 3%Z.
Proof.
  destruct (cumulative_regret_counts_no [1; 0; 0; 1]%Z) as (_ & _ & Hk).
  - repeat constructor; lia.
  - destruct (Hk 2%nat) as (Hr & Hw & _ & _); [cbn; lia|]. by split.
Defined.

Section regret_of_a_session.
Context {G : Type} `{NumpyRandom G}.
Variable components : matrix.
Variable sampling : list (list Qc) → list (option Qc) → G → result (list Qc) * G.

Lemma init_invariant (labels0 : list (option Qc)) (g g0 : G) (st0 : Recommender.state) :
  shape0 components = length labels0 →
  Recommender.__init__ components sampling labels0 g = (inr st0, g0) →
  Recommender.gui_invariant components 0 st0 ∧
  Recommender.labels st0 = labels0 ∧
  Recommender._index_history st0 = [] ∧
  Recommender._label_history st0 = [].
Proof.
  intros Hshape Hinit. unfold Recommender.__init__ in Hinit.
  destruct (Recommender.choose_next_index components sampling labels0 g)
    as [[e|i] g1] eqn:Hch; [done|].
  injection Hinit as <- <-.
  pose proof (choose_next_index_range _ _ _ _ _ _ Hshape Hch).
  unfold Recommender.gui_invariant.
  cbn [Recommender.labels Recommender.next_index Recommender._index_history
       Recommender._label_history].
  repeat split; (done || lia).
Qed.

Lemma zeros_label_of (ps : list Recommender.press) :
  length (List.filter (λ x : Z, (x =? 0)%Z) (label_of <$> ps)) =
  length (List.filter is_no ps).
Proof.
  induction ps as [|[] ps IH]; [done|..]; rewrite fmap_cons;
    cbn [List.filter label_of is_no Z.eqb length]; by rewrite IH.
Qed.

Lemma label_of_binary (ps : list Recommender.press) :
  Forall (λ x, x = 0 ∨ x = 1)%Z (label_of <$> ps).
Proof. apply Forall_fmap, list.Forall_forall. intros [] _; cbn; auto. Qed.

(** X15. The regret curve of a session.  After any run of presses on a
    freshly created recommender, the cumulative regret plotted from
    [_label_history] has one point per press, and its value at round k is
    the number of "no" presses among the first k+1 presses. *)
Theorem session_regret_counts_no_presses (labels0 : list (option Qc)) (g g0 : G)
    (st0 : Recommender.state) (ps : list Recommender.press) :
  shape0 components = length labels0 →
  Recommender.__init__ components sampling labels0 g = (inr st0, g0) →
  let h := Recommender._label_history
             (Recommender.presses components sampling ps st0 g0).1 in
  length (Regret.cumulative_regret h) = length ps ∧
  ∀ k, (k < length ps)%nat →
    Regret.cumulative_regret h !! k =
      Some (Z.of_nat (length (List.filter is_no (take (S k) ps)))).
Proof.
  intros Hshape Hinit h.
  destruct (init_invariant labels0 g g0 st0 Hshape Hinit) as (Hinv & _ & _ & Hlh0).
  destruct (presses_trace components sampling ps st0 g0 0%nat Hinv)
    as (idx & _ & _ & _ & Hlh & _).
  assert (Hh : h = label_of <$> ps).
  { unfold h. by rewrite Hlh, Hlh0. }
  rewrite Hh. unfold Regret.cumulative_regret, Regret.cumsum. split.
  - by rewrite cumsum_from_length, !length_fmap.
  - intros k Hk.
    rewrite cumsum_from_regret
      by (apply label_of_binary || (rewrite length_fmap; done)).
    by rewrite <-fmap_take, zeros_label_of.
Qed.

End regret_of_a_session.

Lemma session_regret_counts_no_presses_witness :
  let h := Recommender._label_history
             (Recommender.presses X_two constant_fit
                [Recommender.yes; Recommender.no]
                {| Recommender.labels := [None; None];
                   Recommender.next_index := 0;
                   Recommender._index_history := [];
                   Recommender._label_history := [] |} 1%nat).1 in
  length (Regret.cumulative_regret h) = 2%nat ∧
  ∀ k, (k < 2)%nat →
    Regret.cumulative_regret h !! k =
      Some (Z.of_nat (length (List.filter is_no
                                (take (S k) [Recommender.yes; Recommender.no])))).
Proof.
  apply (session_regret_counts_no_presses X_two constant_fit [None; None] 0%nat 1%nat _
           [Recommender.yes; Recommender.no]); reflexivity.
Defined.

(** ** Simulating in two blocks *)

Section blocks.
Context {R : Type} `{StanRandom R}.

Lemma sample_n_app {A} (f : R → A * R) (n m : nat) : ∀ r,
  sample_n f (n + m) r =
    ((sample_n f n r).1 ++ (sample_n f m (sample_n f n r).2).1,
     (sample_n f m (sample_n f n r).2).2).
Proof.
  induction n as [|n IH]; intros r.
  - cbn [Nat.add sample_n fst snd app]. by destruct (sample_n f m r).
  - cbn [Nat.add sample_n]. destruct (f r) as [x r1]. rewrite IH.
    destruct (sample_n f n r1) as [xs r2]. cbn [fst snd].
    by destruct (sample_n f m r2).
Qed.

(** X16. Simulated observations come off the generator in order: for a
    valid rate, the block run for N+M observations returns what a run for N
    observations followed by a run for M observations on the generator it
    left behind returns, one after the other. *)
Theorem y_sim_in_two_blocks (N M : nat) (lam : Qc) (r : R) :
  0 ≤ lam →
  ∃ y1 r1 y2 r2,
    Elevator.y_sim N lam r = inr (y1, r1) ∧
    Elevator.y_sim M lam r1 = inr (y2, r2) ∧
    Elevator.y_sim (N + M) lam r = inr (y1 ++ y2, r2).
Proof.
  intros Hl.
  exists (Elevator.stored <$> (sample_n (poisson lam) N r).1),
         (sample_n (poisson lam) N r).2,
         (Elevator.stored <$> (sample_n (poisson lam) M (sample_n (poisson lam) N r).2).1),
         (sample_n (poisson lam) M (sample_n (poisson lam) N r).2).2.
  rewrite !y_sim_ok by done. split_and!; [done..|].
  rewrite sample_n_app. cbn [fst snd]. by rewrite fmap_app.
Qed.

End blocks.

Lemma y_sim_in_two_blocks_witness :
  ∃ y1 r1 y2 r2,
    Elevator.y_sim 2 (Qc_of_Z 3) (0%nat : nat) = inr (y1, r1) ∧
    Elevator.y_sim 1 (Qc_of_Z 3) r1 = inr (y2, r2) ∧
    Elevator.y_sim (2 + 1) (Qc_of_Z 3) (0%nat : nat) = inr (y1 ++ y2, r2).
Proof. apply y_sim_in_two_blocks. by vm_compute. Defined.

(** ** A fit without posterior samples *)

Section no_samples.
Context {G : Type} `{NumpyRandom G}.

(** X17. With no posterior sample in the fit, each of the four
    predictive-check cells stops at its first statement, the random choice
    of a sample from an empty range, whatever the test data are. *)
Theorem cells_fail_without_samples (X_test : matrix) (Y_test : list Qc) (g : G) :
  (∀ tr : Resistant.traces_norm, shape0 (Resistant.beta tr) = 0%nat →
     Resistant.ppc_norm_cell tr X_test Y_test g = inl EmptyBatch ∧
     Resistant.resid_norm_cell tr X_test Y_test g = inl EmptyBatch) ∧
  (∀ tr : Resistant.traces_t, shape0 (Resistant.beta_t tr) = 0%nat →
     Resistant.ppc_t_cell tr X_test Y_test g = inl EmptyBatch ∧
     Resistant.resid_t_cell tr X_test Y_test g = inl EmptyBatch).
Proof.
  split; intros tr HB.
  - unfold Resistant.ppc_norm_cell, Resistant.resid_norm_cell. cbn [Resistant.for_range].
    unfold Resistant.ppc_norm_iter. rewrite HB.
    change (np.arange 0) with (@nil Z). by rewrite choice_empty.
  - unfold Resistant.ppc_t_cell, Resistant.resid_t_cell. cbn [Resistant.for_range].
    unfold Resistant.ppc_t_iter. rewrite HB.
    change (np.arange 0) with (@nil Z). by rewrite choice_empty.
Qed.

End no_samples.

Lemma cells_fail_without_samples_witness :
  Resistant.ppc_norm_cell
    {| Resistant.beta := {| shape1 := 2; rows := [] |};
       Resistant.intercept := []; Resistant.sigma := [] |}
    X_two Y_two (seed 1 : nat) = inl EmptyBatch.
Proof.
  apply (proj1 (cells_fail_without_samples X_two Y_two (seed 1 : nat))). reflexivity.
Defined.

(** ** Certain and impossible events *)

Section extremes.

Lemma count_nonzero_full (bs : list bool) :
  np.count_nonzero bs = length bs ↔ Forall (λ b, b = true) bs.
Proof.
  unfold np.count_nonzero. induction bs as [|b bs IH].
  - split; [constructor|done].
  - pose proof (List.filter_length_le (λ b : bool, b) bs) as Hle.
    cbn [List.filter]. destruct b; cbn [length].
    + rewrite list.Forall_cons, <-IH. split; [intros ?; split; [done|lia]|intros [_ ?]; lia].
    + split; [lia|]. intros Hall. by apply list.Forall_cons in Hall as [? _].
Qed.

Lemma count_nonzero_none (bs : list bool) :
  np.count_nonzero bs = 0%nat ↔ Forall (λ b, b = false) bs.
Proof.
  unfold np.count_nonzero. induction bs as [|b bs IH].
  - split; [constructor|done].
  - cbn [List.filter]. destruct b; cbn [length].
    + split; [lia|]. intros Hall. by apply list.Forall_cons in Hall as [? _].
    + rewrite list.Forall_cons, <-IH. split; [by intros ?|by intros [_ ?]].
Qed.

Lemma fraction_extremes (k n : nat) :
  (0 < n)%nat →
  (Qc_of_Z (Z.of_nat k) / Qc_of_Z (Z.of_nat n) = 1 ↔ k = n) ∧
  (Qc_of_Z (Z.of_nat k) / Qc_of_Z (Z.of_nat n) = 0 ↔ k = 0%nat).
Proof.
  intros Hn.
  assert (Hn0 : Qc_of_Z (Z.of_nat n) ≠ 0).
  { rewrite <-Z2Qc_inj_0. intros E%Z2Qc_inj. lia. }
  assert (Hk : Qc_of_Z (Z.of_nat k) =
               Qc_of_Z (Z.of_nat k) / Qc_of_Z (Z.of_nat n) * Qc_of_Z (Z.of_nat n)).
  { by field. }
  split; split.
  - intros E. rewrite E, Qcmult_1_l in Hk. apply Z2Qc_inj in Hk. lia.
  - intros ->. by field.
  - intros E. rewrite E, Qcmult_0_l, <-Z2Qc_inj_0 in Hk. apply Z2Qc_inj in Hk. lia.
  - intros ->. change (Z.of_nat 0) with 0%Z. rewrite Z2Qc_inj_0.
    unfold Qcdiv. apply Qcmult_0_l.
Qed.

(** X18. Certain and impossible events.  On a non-empty trace the
    posterior probability that delta is at most zero is exactly 1 when
    every sample is at most zero and only then, and exactly 0 when every
    sample is positive and only then; likewise the probability that the
    size of delta is below a tenth of a percent is 1 exactly when every
    sample is that small, and 0 exactly when none is. *)
Theorem posterior_probability_extremes (delta : list Qc) :
  delta ≠ [] →
  (Undervote.prob_le_zero delta = Some 1 ↔ Forall (λ x, x ≤ 0) delta) ∧
  (Undervote.prob_le_zero delta = Some 0 ↔ Forall (λ x, 0 < x) delta) ∧
  (Undervote.prob_abs_lt_tenth_percent delta = Some 1 ↔
     Forall (λ x, Qcabs.Qcabs x < Q2Qc (1 # 1000)) delta) ∧
  (Undervote.prob_abs_lt_tenth_percent delta = Some 0 ↔
     Forall (λ x, Q2Qc (1 # 1000) ≤ Qcabs.Qcabs x) delta).
Proof.
  intros Hne.
  assert (Hgen : ∀ (P : Qc → Prop) `{∀ x, Decision (P x)} (l : list Qc),
            l ≠ [] →
            (np.mean (np.astype_float ((λ x, bool_decide (P x)) <$> l)) = Some 1
               ↔ Forall P l) ∧
            (np.mean (np.astype_float ((λ x, bool_decide (P x)) <$> l)) = Some 0
               ↔ Forall (λ x, ¬ P x) l)).
  { intros P HP l Hl.
    assert (Hbs : (λ x, bool_decide (P x)) <$> l ≠ []) by by destruct l.
    assert (Hpos : (0 < length ((λ x, bool_decide (P x)) <$> l))%nat).
    { destruct l; [done|cbn; lia]. }
    rewrite mean_astype_float by done.
    destruct (fraction_extremes (np.count_nonzero ((λ x, bool_decide (P x)) <$> l))
                (length ((λ x, bool_decide (P x)) <$> l)) Hpos) as [H1 H0].
    split.
    - split.
      + intros E%(inj Some). apply H1, count_nonzero_full in E.
        apply Forall_fmap in E. eapply list.Forall_impl; [exact E|].
        intros x Hx. by apply bool_decide_eq_true in Hx.
      + intros Hall. f_equal. apply H1, count_nonzero_full, Forall_fmap.
        eapply list.Forall_impl; [exact Hall|]. intros x Hx. by apply bool_decide_eq_true.
    - split.
      + intros E%(inj Some). apply H0, count_nonzero_none in E.
        apply Forall_fmap in E. eapply list.Forall_impl; [exact E|].
        intros x Hx. by apply bool_decide_eq_false in Hx.
      + intros Hall. f_equal. apply H0, count_nonzero_none, Forall_fmap.
        eapply list.Forall_impl; [exact Hall|]. intros x Hx. by apply bool_decide_eq_false. }
  destruct (Hgen (λ x, x ≤ 0) _ delta Hne) as [Ha Hb].
  destruct (Hgen (λ x, x < Q2Qc (1 # 1000)) _ (np.abs delta)) as [Hc Hd].
  { unfold np.abs. by destruct delta. }
  unfold Undervote.prob_le_zero, Undervote.prob_abs_lt_tenth_percent,
    np.less_equal, np.less.
  split_and!.
  - done.
  - rewrite Hb. apply Forall_iff. intros x. split; [apply Qcnot_le_lt|apply Qclt_not_le].
  - rewrite Hc. unfold np.abs. by rewrite Forall_fmap.
  - rewrite Hd. unfold np.abs. rewrite Forall_fmap. apply Forall_iff. intros x.
    split; [apply Qcnot_lt_le|apply Qcle_not_lt].
Qed.

End extremes.

Lemma posterior_probability_extremes_witness :
  Undervote.prob_le_zero (Qc_of_Z <$> [-1; 0; -3]%Z) = Some 1.
Proof.
  destruct (posterior_probability_extremes (Qc_of_Z <$> [-1; 0; -3]%Z)) as [Hone _].
  - by rewrite !fmap_cons.
  - apply Hone. repeat constructor; by vm_compute.
Defined.

(** ** The yes/no counter *)

Section counter.
Context {G : Type} `{NumpyRandom G}.
Variable components : matrix.
Variable sampling : list (list Qc) → list (option Qc) → G → result (list Qc) * G.

Lemma count_eq_insert_unlabeled (labels : list (option Qc)) (w v : Qc) : ∀ i,
  labels !! i = Some None →
  Recommender.count_eq (<[i := Some v]> labels) w =
    (Recommender.count_eq labels w + (if bool_decide (v = w) then 1 else 0))%nat.
Proof.
  unfold Recommender.count_eq.
  induction labels as [|l labels IH]; intros i Hi; [done|].
  destruct i as [|i].
  - injection Hi as ->. cbn [list_insert insert List.filter].
    rewrite (bool_decide_eq_false_2 (None = Some w)) by done.
    destruct (decide (v = w)) as [->|Hne].
    + rewrite !bool_decide_eq_true_2 by done. cbn [length]. lia.
    + rewrite (bool_decide_eq_false_2 (Some v = Some w)) by congruence.
      rewrite (bool_decide_eq_false_2 (v = w)) by done. lia.
  - cbn [list_insert insert List.filter].
    destruct (bool_decide (l = Some w)); cbn [length]; rewrite IH by done; lia.
Qed.

(** X19. The counter of the GUI.  A press on a document that is still
    unlabelled raises the count of the pressed button's label in [labels]
    by one and leaves the other count as it was. *)
Theorem press_updates_counter (p : Recommender.press) (st : Recommender.state) (g : G) :
  (0 ≤ Recommender.next_index st)%Z →
  Recommender.labels st !! Z.to_nat (Recommender.next_index st) = Some None →
  let st' := (Recommender.on_click components sampling p st g).1.1 in
  Recommender.count_eq (Recommender.labels st') 1 =
    (Recommender.count_eq (Recommender.labels st) 1 + (if is_no p then 0 else 1))%nat ∧
  Recommender.count_eq (Recommender.labels st') 0 =
    (Recommender.count_eq (Recommender.labels st) 0 + (if is_no p then 1 else 0))%nat.
Proof.
  intros Hi Hun st'.
  assert (Hrange : (0 ≤ Recommender.next_index st
                    < Z.of_nat (length (Recommender.labels st)))%Z).
  { apply lookup_lt_Some in Hun. lia. }
  assert (Hl : Recommender.labels st' =
                 <[Z.to_nat (Recommender.next_index st) := Some (Qc_of_Z (label_of p))]>
                   (Recommender.labels st)).
  { unfold st'. destruct p;
      [destruct (record_frame components sampling 1 st g Hrange) as (? & _)
      |destruct (record_frame components sampling 0 st g Hrange) as (? & _)]; done. }
  rewrite Hl, !count_eq_insert_unlabeled by done.
  destruct p; cbn [label_of is_no]; split; f_equal.
Qed.

End counter.

Lemma press_updates_counter_witness :
  let st' := (Recommender.on_click X_two constant_fit Recommender.yes gui_two 0%nat).1.1 in
  Recommender.count_eq (Recommender.labels st') 1 =
    (Recommender.count_eq (Recommender.labels gui_two) 1 + 1)%nat ∧
  Recommender.count_eq (Recommender.labels st') 0 =
    (Recommender.count_eq (Recommender.labels gui_two) 0 + 0)%nat.
Proof.
  apply (press_updates_counter X_two constant_fit Recommender.yes gui_two 0%nat);
    [by vm_compute|reflexivity].
Defined.
